(** * td: a local, file-backed task tracker

    Shallow embedding of the command layer [src/td/cli.py] over a model of
    the project directory, and the properties of the task store that the
    commands rely on.

    Strings are byte strings ([string], one [ascii] per byte); the task
    directory [.td/tasks/] is a finite map from record name to record;
    commands are computations in a state-and-exception monad over a
    [world] holding the directory, the terminal and the clock. *)

From Stdlib Require Import Ascii String.
From stdpp Require Import gmap strings list pretty sorting.

(** ** Characters and titles *)

Module Char.

Definition code (c : ascii) : nat := nat_of_ascii c.

Definition is_digit (c : ascii) : bool :=
  bool_decide (48 ≤ code c ≤ 57).
Definition is_lower (c : ascii) : bool :=
  bool_decide (97 ≤ code c ≤ 122).
Definition is_upper (c : ascii) : bool :=
  bool_decide (65 ≤ code c ≤ 90).

(** ASCII letters and digits. *)
Definition is_alnum (c : ascii) : bool :=
  is_digit c || is_lower c || is_upper c.

(** The characters of a slug before hyphens are put in: [[a-z0-9]]. *)
Definition is_slug_alnum (c : ascii) : bool := is_digit c || is_lower c.

Definition hyphen : ascii := "-"%char.

(** The characters an id may be made of: [[a-z0-9-]]. *)
Definition is_id_char (c : ascii) : bool :=
  is_slug_alnum c || bool_decide (c = hyphen).

(** [str.lower] on one byte: only [A-Z] move. *)
Definition lower (c : ascii) : ascii :=
  if is_upper c then ascii_of_nat (code c + 32) else c.

End Char.

(** ** Tasks ([td.models]) *)

Module Task.

(** Modelled from the spec: the class [Task] of [td.models], whose source
    is not at hand; the fields are those of the spec's data model and of the
    constructor call in [add]. [created] and [updated] are instants of the
    clock, in the unit the clock counts in. *)
Record t : Type := mk {
  id : string;
  title : string;
  state : string;
  parent : option string;
  notes : option string;
  created : Z;
  updated : Z;
}.

Definition set_state (v : string) (k : t) : t :=
  mk (id k) (title k) v (parent k) (notes k) (created k) (updated k).
Definition set_updated (v : Z) (k : t) : t :=
  mk (id k) (title k) (state k) (parent k) (notes k) (created k) v.
Definition set_title (v : string) (k : t) : t :=
  mk (id k) v (state k) (parent k) (notes k) (created k) (updated k).
Definition set_notes (v : option string) (k : t) : t :=
  mk (id k) (title k) (state k) (parent k) v (created k) (updated k).
Definition set_parent (v : option string) (k : t) : t :=
  mk (id k) (title k) (state k) v (notes k) (created k) (updated k).

Global Instance eq_dec : EqDecision t.
Proof. solve_decision. Defined.

End Task.

(** Modelled from the spec: the constant [VALID_STATES] of [td.models],
    whose source is not at hand. The spec gives the fixed ordered
    enumeration [{focus, active, later, done}]; the comment in [ls_cmd]
    reads the same order. *)
Definition VALID_STATES : list string := ["focus"; "active"; "later"; "done"].

(** Modelled from the spec: [slugify] of [td.models], whose source is
    not at hand. The spec: "lowercases, replaces runs of
    non-alphanumeric characters with a single hyphen, strips leading/trailing
    hyphens". [squeeze in_run s] rewrites [s] left to right; [in_run] tells
    that the hyphen of the current run has been written already. *)
Fixpoint squeeze (in_run : bool) (s : list ascii) : list ascii :=
  match s with
  | [] => []
  | c :: r =>
      if Char.is_slug_alnum c then c :: squeeze false r
      else if in_run then squeeze true r
      else Char.hyphen :: squeeze true r
  end.

(** Modelled from the spec: "strips leading/trailing hyphens",
    [str.strip ("-")], one side at a time. *)
Fixpoint lstrip (s : list ascii) : list ascii :=
  match s with
  | [] => []
  | c :: r => if bool_decide (c = Char.hyphen) then lstrip r else s
  end.

Definition rstrip (s : list ascii) : list ascii :=
  reverse (lstrip (reverse s)).

Definition strip (s : list ascii) : list ascii := rstrip (lstrip s).

(** Modelled from the spec: [slugify] on the bytes of the title. *)
Definition slugify_chars (s : list ascii) : list ascii :=
  strip (squeeze false (map Char.lower s)).

(** Modelled from the spec: [slugify (title)]. *)
Definition slugify (title : string) : string :=
  string_of_list_ascii (slugify_chars (list_ascii_of_string title)).

(** Python's truth value of an optional string: [None] and [""] are
    false. [nonempty o] is the string when [o] is true. *)
Definition nonempty (o : option string) : option string :=
  match o with
  | Some "" => None
  | _ => o
  end.

(** ** The world a command runs in *)

(** What a command writes to the terminal. *)
Inductive output : Type :=
  | Line (text : string)                         (* click.echo *)
  | Json (entries : list (list (string * string))) (* click.echo (json.dumps ...) *)
  | Prompt (text : string).                      (* the question of click.confirm *)

Record world : Type := World {
  td_root : option string;       (* nearest ancestor directory holding [.td/] *)
  tasks : gmap string Task.t;    (* [.td/tasks/<name>.yaml], by name *)
  stdout : list output;          (* written so far, oldest first *)
  stdin : list bool;             (* answers still to be read by [confirm] *)
  clock : Z;                     (* what [datetime.now ()] reads *)
  stack_limit : nat;             (* frames the interpreter still allows *)
}.

Definition with_tasks (m : gmap string Task.t) (w : world) : world :=
  World (td_root w) m (stdout w) (stdin w) (clock w) (stack_limit w).
Definition with_stdout (o : list output) (w : world) : world :=
  World (td_root w) (tasks w) o (stdin w) (clock w) (stack_limit w).
Definition with_stdin (i : list bool) (w : world) : world :=
  World (td_root w) (tasks w) (stdout w) i (clock w) (stack_limit w).

(** The exceptions a command can end with. [NotInitialized] and [NotFound]
    are the store's conditions; [ClickException] and [Abort] are click's;
    [RecursionError] is the interpreter's. *)
Inductive error : Type :=
  | ClickException (message : string)
  | Abort
  | NotInitialized
  | NotFound (id : string)
  | RecursionError.

Inductive result (A : Type) : Type :=
  | Ok (a : A)
  | Raise (e : error).
Arguments Ok {A} a.
Arguments Raise {A} e.

(** A command: reads and changes the world, returns or raises. What was
    done before an exception stays done. *)
Definition cmd (A : Type) : Type := world → result A * world.

Global Instance cmd_ret : MRet cmd := λ A a w, (Ok a, w).
Global Instance cmd_bind : MBind cmd := λ A B f m w,
  match m w with
  | (Ok a, w') => f a w'
  | (Raise e, w') => (Raise e, w')
  end.
Global Instance cmd_throw : MThrow error cmd := λ A e w, (Raise e, w).

(** [for t in l: body t] *)
Fixpoint for_each {A} (l : list A) (body : A → cmd ()) : cmd () :=
  match l with
  | [] => mret ()
  | a :: r => body a;; for_each r body
  end.

(** *** The terminal and the clock *)

Definition echo (text : string) : cmd () :=
  λ w, (Ok (), with_stdout (stdout w ++ [Line text]) w).

Definition echo_json (entries : list (list (string * string))) : cmd () :=
  λ w, (Ok (), with_stdout (stdout w ++ [Json entries]) w).

(** [click.confirm (text, abort=True)]: asks, reads one answer, and raises
    [Abort] on "no" and at the end of the input. *)
Definition confirm (text : string) : cmd () :=
  λ w, let w' := with_stdout (stdout w ++ [Prompt text]) w in
       match stdin w with
       | true :: rest => (Ok (), with_stdin rest w')
       | false :: rest => (Raise Abort, with_stdin rest w')
       | [] => (Raise Abort, w')
       end.

Definition datetime_now : cmd Z := λ w, (Ok (clock w), w).

Definition get_stack_limit : cmd nat := λ w, (Ok (stack_limit w), w).

(** *** The task directory, as [pathlib] sees it *)

(** [(root / ".td" / "tasks" / f"{task_id}.yaml").exists ()]. The directory
    is a map from names to records, compared as they are written: this is
    the test of the path for a [task_id] that is one path component (no
    separator in it), which [plain_name] says. *)
Definition task_file_exists (root : string) (task_id : string) : cmd bool :=
  λ w, (Ok (bool_decide (is_Some (tasks w !! task_id))), w).

(** ** The store ([td.store]) *)

Module Store.

(** Modelled from the spec: [find_td_root] of [td.store], whose source is
    not at hand. "searches upward through ancestor directories for
    the storage marker; returns the first directory found. Fails with a
    'not initialized' condition if no ancestor contains the marker". *)
Definition find_td_root : cmd string :=
  λ w, match td_root w with
       | Some root => (Ok root, w)
       | None => (Raise NotInitialized, w)
       end.

(** Modelled from the spec: [load_task] of [td.store], whose source is
    not at hand. "reads and deserializes exactly one record. Fails
    with a 'not found' condition if no record with that id exists". The
    records of the model are the parsed ones. *)
Definition load_task (root : string) (task_id : string) : cmd Task.t :=
  λ w, match tasks w !! task_id with
       | Some task => (Ok task, w)
       | None => (Raise (NotFound task_id), w)
       end.

(** Modelled from the spec: [save_task] of [td.store], whose source is
    not at hand. "serializes the full Task record and writes it to the
    record keyed by id, overwriting any prior content. Creates the record if
    absent". *)
Definition save_task (root : string) (task : Task.t) : cmd () :=
  λ w, (Ok (), with_tasks (<[Task.id task := task]> (tasks w)) w).

(** Modelled from the spec: [delete_task] of [td.store], whose source is
    not at hand. "removes the record for id. Fails with 'not found'
    if absent. Does not touch children". *)
Definition delete_task (root : string) (task_id : string) : cmd () :=
  λ w, match tasks w !! task_id with
       | Some _ => (Ok (), with_tasks (delete task_id (tasks w)) w)
       | None => (Raise (NotFound task_id), w)
       end.

(** Modelled from the spec: [load_all_tasks] of [td.store], whose source is
    not at hand. "reads every record in the storage directory,
    deserializes each, and returns them as an unordered collection". The
    order is the one the directory happens to list them in. *)
Definition load_all_tasks (root : string) : cmd (list Task.t) :=
  λ w, (Ok ((map_to_list (tasks w)).*2), w).

(** Modelled from the spec: the candidates of [resolve_unique_id], "a
    numeric suffix (base-2, base-3, ...)": [f"{base}-{n}"]. *)
Definition suffixed (base : string) (n : nat) : string :=
  base +:+ "-" +:+ pretty n.

(** Modelled from the spec: the loop of [resolve_unique_id], "incrementing
    until an unused id is found". [fuel] bounds the number of turns; the
    loop is entered with more fuel than there are records, which
    [next_free_spec] shows to be enough. *)
Fixpoint next_free (fuel : nat) (m : gmap string Task.t)
    (base : string) (n : nat) : string :=
  match fuel with
  | O => suffixed base n
  | S fuel' =>
      if bool_decide (is_Some (m !! suffixed base n))
      then next_free fuel' m base (S n)
      else suffixed base n
  end.

(** Modelled from the spec: the id [resolve_unique_id] returns over the
    records [m], "base if no record with that id exists; otherwise appends a
    numeric suffix". *)
Definition unique_id (m : gmap string Task.t) (base : string) : string :=
  if bool_decide (is_Some (m !! base))
  then next_free (S (size m)) m base 2
  else base.

(** Modelled from the spec: [resolve_unique_id] of [td.store], whose source
    is not at hand; it reads the directory and changes nothing. *)
Definition resolve_unique_id (root : string) (base : string) : cmd string :=
  λ w, (Ok (unique_id (tasks w) base), w).

End Store.

(** ** The commands ([td.cli]) *)

Module Cli.
Import Store.

(** [td add TITLE [--parent P] [--state S] [--id ID]]. click has checked
    [state] against [VALID_STATES] before the body runs. *)
Definition add (title : string) (parent state custom_id : option string)
    : cmd () :=
  root ← find_td_root;
  task_id ←
    match nonempty custom_id with
    | Some task_id =>
        taken ← task_file_exists root task_id;
        if taken : bool
        then mthrow (ClickException
                       ("Task ID '" +:+ task_id +:+ "' already exists."))
        else mret task_id
    | None =>
        let base := slugify title in
        if bool_decide (base = "")
        then mthrow (ClickException "Title must produce a valid slug.")
        else resolve_unique_id root base
    end;
  let state := default "active" state in
  now ← datetime_now;
  let task := Task.mk task_id title state parent None now now in
  save_task root task;;
  echo task_id.

Definition _set_state (task_id new_state : string) : cmd () :=
  root ← find_td_root;
  task ← load_task root task_id;
  let task := Task.set_state new_state task in
  now ← datetime_now;
  let task := Task.set_updated now task in
  save_task root task;;
  echo (task_id +:+ " → " +:+ new_state).

Definition focus (id : string) : cmd () := _set_state id "focus".
Definition active (id : string) : cmd () := _set_state id "active".
Definition later (id : string) : cmd () := _set_state id "later".
Definition done (id : string) : cmd () := _set_state id "done".

(** [{s: i for i, s in enumerate (VALID_STATES)}] *)
Definition state_order : gmap string nat :=
  foldl (λ d '(i, s), <[s := i]> d) ∅ (imap (λ i s, (i, s)) VALID_STATES).

(** [lambda t: state_order.get (t.state, 99)] *)
Definition sort_key (t : Task.t) : nat :=
  default 99 (state_order !! Task.state t).

(** [list.sort (key=...)] is a stable sort: [insert_by] puts [x], which
    stood before all of [l], in front of the first element whose key is
    not smaller. *)
Fixpoint insert_by {A} (key : A → nat) (x : A) (l : list A) : list A :=
  match l with
  | [] => [x]
  | y :: r =>
      if decide (key x ≤ key y) then x :: l else y :: insert_by key x r
  end.

Fixpoint sort_by {A} (key : A → nat) (l : list A) : list A :=
  match l with
  | [] => []
  | x :: r => insert_by key x (sort_by key r)
  end.

(** The tasks [ls] goes on to print, in the order it prints them. *)
Definition ls_select (filter_state : option string) (show_all : bool)
    (tasks : list Task.t) : list Task.t :=
  let tasks :=
    match nonempty filter_state with
    | Some wanted => filter (λ t, Task.state t = wanted) tasks
    | None =>
        if negb show_all
        then filter (λ t, Task.state t ≠ "done") tasks
        else tasks
    end in
  sort_by sort_key tasks.

(** [f"{s:<{width}}"]; lengths count bytes, which are the characters of
    an ASCII string. *)
Definition ljust (width : nat) (s : string) : string :=
  s +:+ string_of_list_ascii (replicate (width - String.length s) " "%char).

Definition json_entry (t : Task.t) : list (string * string) :=
  [("id", Task.id t); ("title", Task.title t); ("state", Task.state t)]
  ++ match nonempty (Task.parent t) with
     | Some p => [("parent", p)]
     | None => []
     end.

Definition table_row (state_width id_width : nat) (t : Task.t) : string :=
  ljust state_width (Task.state t) +:+ "  " +:+
  ljust id_width (Task.id t) +:+ "  " +:+ Task.title t.

(** [td ls [--state S] [--all] [--json]] *)
Definition ls_cmd (filter_state : option string) (show_all as_json : bool)
    : cmd () :=
  root ← find_td_root;
  tasks ← load_all_tasks root;
  let tasks := ls_select filter_state show_all tasks in
  if as_json then echo_json (json_entry <$> tasks)
  else
    match tasks with
    | [] => echo "No tasks."
    | _ =>
        let id_width := max_list (String.length ∘ Task.id <$> tasks) in
        let state_width := max_list (String.length ∘ Task.state <$> tasks) in
        echo (ljust state_width "STATE" +:+ "  " +:+
              ljust id_width "ID" +:+ "  TITLE");;
        for_each tasks (λ t, echo (table_row state_width id_width t))
    end.

(** [{t.id: t for t in tasks}] *)
Definition task_map_of (tasks : list Task.t) : gmap string Task.t :=
  foldl (λ d t, <[Task.id t := t]> d) ∅ tasks.

(** [for t in tasks: children.setdefault (t.parent, []).append (t)] *)
Definition children_of (tasks : list Task.t)
    : gmap (option string) (list Task.t) :=
  foldl (λ d t, <[Task.parent t := default [] (d !! Task.parent t) ++ [t]]> d)
        ∅ tasks.

Definition tree_line (indent : nat) (t : Task.t) : string :=
  string_of_list_ascii (replicate (2 * indent) " "%char) +:+
  Task.id t +:+ " [" +:+ Task.state t +:+ "]".

(** The inner function of [tree]. [depth] is the number of calls the
    interpreter still allows; a chain of parents that loops uses them
    up. *)
Fixpoint print_tree (depth : nat)
    (children : gmap (option string) (list Task.t))
    (parent_id : option string) (indent : nat) : cmd () :=
  match depth with
  | O => mthrow RecursionError
  | S depth' =>
      for_each (default [] (children !! parent_id)) (λ t,
        echo (tree_line indent t);;
        print_tree depth' children (Some (Task.id t)) (S indent))
  end.

(** [td tree [ID]] *)
Definition tree (id : option string) : cmd () :=
  root ← find_td_root;
  tasks ← load_all_tasks root;
  let tasks := filter (λ t, Task.state t ≠ "done") tasks in
  let task_map := task_map_of tasks in
  let children := children_of tasks in
  depth ← get_stack_limit;
  match nonempty id with
  | Some id =>
      match task_map !! id with
      | None => mthrow (ClickException ("Task '" +:+ id +:+ "' not found."))
      | Some t =>
          echo (tree_line 0 t);;
          print_tree depth children (Some id) 1
      end
  | None => print_tree depth children None 0
  end.

(** [td show ID]. The two instants are printed as the clock counts
    them. *)
Definition show (id : string) : cmd () :=
  root ← find_td_root;
  task ← load_task root id;
  echo ("id:      " +:+ Task.id task);;
  echo ("title:   " +:+ Task.title task);;
  echo ("state:   " +:+ Task.state task);;
  match nonempty (Task.parent task) with
  | Some p => echo ("parent:  " +:+ p)
  | None => mret ()
  end;;
  match nonempty (Task.notes task) with
  | Some n => echo ("notes:   " +:+ n)
  | None => mret ()
  end;;
  echo ("created: " +:+ pretty (Task.created task));;
  echo ("updated: " +:+ pretty (Task.updated task)).

(** [td edit ID [--title T] [--notes N] [--parent P]] *)
Definition edit (id : string) (title notes parent : option string)
    : cmd () :=
  root ← find_td_root;
  task ← load_task root id;
  let changed := false in
  let '(task, changed) :=
    match title with
    | Some v => (Task.set_title v task, true)
    | None => (task, changed)
    end in
  let '(task, changed) :=
    match notes with
    | Some v => (Task.set_notes (nonempty (Some v)) task, true)
    | None => (task, changed)
    end in
  let '(task, changed) :=
    match parent with
    | Some v => (Task.set_parent (nonempty (Some v)) task, true)
    | None => (task, changed)
    end in
  if changed : bool then
    now ← datetime_now;
    save_task root (Task.set_updated now task);;
    echo ("Updated " +:+ id)
  else echo "Nothing to update.".

(** [td mv ID PARENT_ID] *)
Definition mv (id parent_id : string) : cmd () :=
  root ← find_td_root;
  task ← load_task root id;
  let task := Task.set_parent (Some parent_id) task in
  now ← datetime_now;
  let task := Task.set_updated now task in
  save_task root task;;
  echo ("Moved " +:+ id +:+ " → " +:+ parent_id).

(** [td rm ID [--force]] *)
Definition rm (id : string) (force : bool) : cmd () :=
  root ← find_td_root;
  (* Verify it exists first *)
  load_task root id;;
  (if negb force
   then confirm ("Delete task '" +:+ id +:+ "'?")
   else mret ());;
  delete_task root id;;
  echo ("Deleted " +:+ id).

(** [sep.join (parts)] *)
Fixpoint join (sep : string) (parts : list string) : string :=
  match parts with
  | [] => ""
  | p :: rest =>
      match rest with
      | [] => p
      | _ => p +:+ sep +:+ join sep rest
      end
  end.

(** The dictionary [counts] of [status] after its loop:
    [{s: 0 for s in VALID_STATES}], then
    [counts[t.state] = counts.get (t.state, 0) + 1] for every task. *)
Definition status_counts (tasks : list Task.t) : gmap string nat :=
  let counts := foldl (λ d s, <[s := 0]> d) ∅ VALID_STATES in
  foldl (λ d t, <[Task.state t := default 0 (d !! Task.state t) + 1]> d)
        counts tasks.

(** [td status]. [counts[s]] is read for the keys the dictionary was
    started with, which [status_counts_valid] shows to be there, so the
    subscript has no [KeyError] to raise. *)
Definition status : cmd () :=
  root ← find_td_root;
  tasks ← load_all_tasks root;
  let counts := status_counts tasks in
  let total := length tasks in
  let parts :=
    (λ s, s +:+ ": " +:+ pretty (default 0 (counts !! s))) <$> VALID_STATES in
  let parts := parts ++ ["total: " +:+ pretty total] in
  echo (join "  " parts).

End Cli.

(** * Vocabulary of the properties *)

Definition chars (s : string) : list ascii := list_ascii_of_string s.

Definition has_alnum (title : string) : bool :=
  existsb Char.is_alnum (chars title).

(** What [slugify] promises about the characters of a slug. *)
Record slug_shape (s : list ascii) : Prop := SlugShape {
  slug_nonempty : s ≠ [];
  slug_id_chars : Forall (λ c, Char.is_id_char c = true) s;
  slug_lowercase : Forall (λ c, Char.is_upper c = false) s;
  slug_head : head s ≠ Some Char.hyphen;
  slug_last : last s ≠ Some Char.hyphen;
  slug_no_double : ∀ i, s !! i = Some Char.hyphen → s !! S i ≠ Some Char.hyphen;
}.

(** The order [sort_by key] sorts by. *)
Definition key_le {A} (key : A → nat) (a b : A) : Prop := (key a ≤ key b).

(** [precedes s1 s2]: [s1] is listed before [s2] in [VALID_STATES]. *)
Definition precedes (s1 s2 : string) : Prop :=
  ∃ i j, VALID_STATES !! i = Some s1 ∧ VALID_STATES !! j = Some s2 ∧ (i < j).

Definition state_key (s : string) : nat := default 99 (Cli.state_order !! s).

(** The records of the directory, as [load_all_tasks] hands them out. *)
Definition stored_tasks (w : world) : list Task.t := (map_to_list (tasks w)).*2.

(** Every record is named by the id it holds, and no id is empty. *)
Definition store_wf (m : gmap string Task.t) : Prop :=
  ∀ k t, m !! k = Some t → Task.id t = k ∧ k ≠ "".

Definition prints (lines : list output) (w : world) : world :=
  with_stdout (stdout w ++ lines) w.

Ltac unfold_cmd :=
  unfold mbind, cmd_bind, mret, cmd_ret, mthrow, cmd_throw,
    Store.find_td_root, Store.load_task, Store.save_task, Store.delete_task,
    Store.load_all_tasks, task_file_exists, Store.resolve_unique_id,
    datetime_now, get_stack_limit, echo, echo_json in *.

Definition fix_login : Task.t :=
  Task.mk "fix-login" "Fix login" "active" None None 10 10.

Definition w_demo : world :=
  World (Some "/home/u/proj") {[ "fix-login" := fix_login ]} [] [] 1000 100.

(** The four state commands, each with the state it moves a task to. *)
Definition transitions : list ((string → cmd ()) * string) :=
  [(Cli.focus, "focus"); (Cli.active, "active");
   (Cli.later, "later"); (Cli.done, "done")].

(** The task [_set_state] writes back for a loaded [t]. *)
Definition moved (target : string) (now : Z) (t : Task.t) : Task.t :=
  Task.set_updated now (Task.set_state target t).

Definition w_asked_no : world :=
  World (Some "/home/u/proj") {[ "fix-login" := fix_login ]} [] [false] 1000 100.

(** What [ls] prints for the tasks it has selected, as a table. *)
Definition ls_table (rows : list Task.t) : list output :=
  match rows with
  | [] => [Line "No tasks."]
  | _ =>
      let id_width := max_list (String.length ∘ Task.id <$> rows) in
      let state_width := max_list (String.length ∘ Task.state <$> rows) in
      Line (Cli.ljust state_width "STATE" +:+ "  " +:+
            Cli.ljust id_width "ID" +:+ "  TITLE")
      :: (Line ∘ Cli.table_row state_width id_width <$> rows)
  end.

Definition w_empty : world := World (Some "/home/u/proj") ∅ [] [] 1000 100.

(** [td add A --state active; td add B --state done; td add C --state focus] *)
Definition add_A_B_C : cmd () :=
  Cli.add "A" None (Some "active") None;;
  Cli.add "B" None (Some "done") None;;
  Cli.add "C" None (Some "focus") None.

Definition task_A : Task.t := Task.mk "a" "A" "active" None None 1000 1000.
Definition task_B : Task.t := Task.mk "b" "B" "done" None None 1000 1000.
Definition task_C : Task.t := Task.mk "c" "C" "focus" None None 1000 1000.

(** The lines [tree] prints for a list of (indent, task) rows. *)
Definition tree_lines (rows : list (nat * Task.t)) : list output :=
  (λ r, Line (Cli.tree_line r.1 r.2)) <$> rows.

Definition w_abc : world := (add_A_B_C w_empty).2.

(** The shape the spec gives an id: lowercase letters, digits, hyphens. *)
Definition id_shape (id : string) : Prop :=
  Forall (λ c, Char.is_id_char c = true) (chars id).

Global Instance id_shape_dec id : Decision (id_shape id).
Proof. unfold id_shape. apply _. Defined.

(** The commands that take the id of one task and load it. *)
Inductive resolving : (string → cmd ()) → Prop :=
  | resolving_set_state target : resolving (λ id, Cli._set_state id target)
  | resolving_focus : resolving Cli.focus
  | resolving_active : resolving Cli.active
  | resolving_later : resolving Cli.later
  | resolving_done : resolving Cli.done
  | resolving_show : resolving Cli.show
  | resolving_edit title notes parent :
      resolving (λ id, Cli.edit id title notes parent)
  | resolving_mv parent_id : resolving (λ id, Cli.mv id parent_id)
  | resolving_rm force : resolving (λ id, Cli.rm id force).

(** Resolution by prefix, as the spec words it: an identifier that is a
    prefix of exactly one stored id stands for that id. *)
Definition resolves_unique_prefix (command : string → cmd ()) : Prop :=
  ∀ w typed full,
    is_Some (td_root w) →
    is_Some (tasks w !! full) →
    (∀ k, is_Some (tasks w !! k) → String.prefix typed k = true → k = full) →
    String.prefix typed full = true →
    command typed w = command full w.

Definition fix_logout : Task.t :=
  Task.mk "fix-logout" "Fix logout" "later" None None 20 20.

Definition w_two : world :=
  World (Some "/home/u/proj")
        {[ "fix-login" := fix_login; "fix-logout" := fix_logout ]} [] [] 1000 100.

(** The invariant the spec states of the stored ids: every record is named
    by the id it holds, and the id is made of lowercase letters, digits and
    hyphens. *)
Definition store_ok (m : gmap string Task.t) : Prop :=
  ∀ k t, m !! k = Some t → Task.id t = k ∧ id_shape k.

Definition my_report : Task.t :=
  Task.mk "My Report" "Write report" "active" None None 1000 1000.

(** The commands of the command line, with their arguments. *)
Inductive command : cmd () → Prop :=
  | command_add title parent state custom_id :
      command (Cli.add title parent state custom_id)
  | command_set_state id target : command (Cli._set_state id target)
  | command_ls filter_state show_all as_json :
      command (Cli.ls_cmd filter_state show_all as_json)
  | command_tree id : command (Cli.tree id)
  | command_show id : command (Cli.show id)
  | command_edit id title notes parent : command (Cli.edit id title notes parent)
  | command_mv id parent_id : command (Cli.mv id parent_id)
  | command_rm id force : command (Cli.rm id force).

(** Every command of the command line that works on a project. *)
Definition project_command (c : cmd ()) : Prop := command c ∨ c = Cli.status.

(** The task [add] saves under [task_id]. *)
Definition new_task (task_id title : string) (parent state : option string)
    (now : Z) : Task.t :=
  Task.mk task_id title (default "active" state) parent None now now.

Definition w_nowhere : world := World None ∅ [] [] 0 10.

(** The read-only commands. *)
Inductive read_only : cmd () → Prop :=
  | read_only_ls filter_state show_all as_json :
      read_only (Cli.ls_cmd filter_state show_all as_json)
  | read_only_tree id : read_only (Cli.tree id)
  | read_only_show id : read_only (Cli.show id)
  | read_only_status : read_only Cli.status.

(** The widths [ls] pads the two first columns of its table to. *)
Definition state_width (rows : list Task.t) : nat :=
  max_list (String.length ∘ Task.state <$> rows).
Definition id_width (rows : list Task.t) : nat :=
  max_list (String.length ∘ Task.id <$> rows).

Definition odd_task : Task.t :=
  Task.mk "odd" "Odd one" "blocked" None None 5 5.

(** The commands that rewrite one stored task. *)
Inductive updating : (string → cmd ()) → Prop :=
  | updating_set_state target : updating (λ id, Cli._set_state id target)
  | updating_edit title notes parent :
      updating (λ id, Cli.edit id title notes parent)
  | updating_mv parent_id : updating (λ id, Cli.mv id parent_id).

(** The task [edit] writes back for a loaded [t]. *)
Definition edited (title notes parent : option string) (now : Z) (t : Task.t)
    : Task.t :=
  Task.mk (Task.id t)
          (default (Task.title t) title)
          (Task.state t)
          (match parent with Some v => nonempty (Some v) | None => Task.parent t end)
          (match notes with Some v => nonempty (Some v) | None => Task.notes t end)
          (Task.created t)
          now.

Definition with_notes : Task.t :=
  Task.mk "fix-login" "Fix login" "active" (Some "epic") (Some "ask Bo") 10 10.

Definition w_notes : world :=
  World (Some "/home/u/proj") {[ "fix-login" := with_notes ]} [] [] 1000 100.

(** A task filed under itself. *)
Definition loop_task : Task.t :=
  Task.mk "loop" "Loop" "active" (Some "loop") None 7 7.

Definition w_loop : world :=
  World (Some "/home/u/proj") {[ "loop" := loop_task ]} [] [] 1000 1000.

(** Where a row of [tree] may stand: at [indent] when the task is filed
    under [parent_id], deeper when it is filed under a task that is shown. *)
Definition row_under (shown : list Task.t) (parent_id : option string)
    (indent : nat) (r : nat * Task.t) : Prop :=
  r.2 ∈ shown ∧
  ((r.1 = indent ∧ Task.parent r.2 = parent_id) ∨
   (indent < r.1 ∧ ∃ p, p ∈ shown ∧ Task.parent r.2 = Some (Task.id p))).

Definition child_of_done : Task.t :=
  Task.mk "kid" "Kid" "active" (Some "b") None 1000 1000.

Definition w_kid : world :=
  World (Some "/home/u/proj")
        {[ "b" := task_B; "kid" := child_of_done ]} [] [] 1000 100.

(** The line of [status] for the given counts. *)
Definition status_text (count : string → nat) (total : nat) : string :=
  Cli.join "  " (((λ s, s +:+ ": " +:+ pretty (count s)) <$> VALID_STATES)
                 ++ ["total: " +:+ pretty total]).

(** The number of tasks of a list in a state. *)
Definition count_state (ts : list Task.t) (s : string) : nat :=
  length (filter (λ t, Task.state t = s) ts).

(** The tasks [tree] works with: the stored ones that are not done. *)
Definition not_done (w : world) : list Task.t :=
  filter (λ t, Task.state t ≠ "done") (stored_tasks w).

Definition kid_of_a : Task.t :=
  Task.mk "kid" "Kid" "later" (Some "a") None 1000 1000.

Definition w_family : world :=
  World (Some "/home/u/proj")
        {[ "a" := task_A; "kid" := kid_of_a ]} [] [] 1000 100.

(** A name that is one path component: no [/] and no backslash in it. *)
Definition plain_name (name : string) : Prop :=
  Forall (λ c, Char.code c ≠ 47 ∧ Char.code c ≠ 92) (chars name).

(** Text of ASCII characters only: one byte a character, so that [len]
    and the padding of a format count what [String.length] counts. *)
Definition ascii_only (s : string) : Prop :=
  Forall (λ c, Char.code c < 128) (chars s).

(** The task [add "?!" --id "todo-1"] saves in [w_empty]. *)
Definition todo_1 : Task.t :=
  Task.mk "todo-1" "?!" "active" None None 1000 1000.

(** * Properties *)

(** ** Characters *)

Lemma lower_alnum c : Char.is_slug_alnum (Char.lower c) = Char.is_alnum c.
Proof. by destruct c as [[] [] [] [] [] [] [] []]. Qed.

Lemma hyphen_not_alnum : Char.is_slug_alnum Char.hyphen = false.
Proof. reflexivity. Qed.

Lemma slug_alnum_not_hyphen c : Char.is_slug_alnum c = true → c ≠ Char.hyphen.
Proof. intros H ->. by rewrite hyphen_not_alnum in H. Qed.

Lemma slug_alnum_id_char c : Char.is_slug_alnum c = true → Char.is_id_char c = true.
Proof. unfold Char.is_id_char. by intros ->. Qed.

Lemma id_char_not_upper c : Char.is_id_char c = true → Char.is_upper c = false.
Proof. by destruct c as [[] [] [] [] [] [] [] []]. Qed.

(** ** [slugify] *)

Section Squeeze.

Lemma squeeze_id_chars b s : Forall (λ c, Char.is_id_char c = true) (squeeze b s).
Proof.
  revert b. induction s as [|c r IH]; intros b; simpl; [constructor|].
  destruct (Char.is_slug_alnum c) eqn:Hc.
  - constructor; [by apply slug_alnum_id_char | apply IH].
  - destruct b; [apply IH|]. constructor; [done | apply IH].
Qed.

Lemma squeeze_in_run_head s : head (squeeze true s) ≠ Some Char.hyphen.
Proof.
  induction s as [|c r IH]; simpl; [done|].
  destruct (Char.is_slug_alnum c) eqn:Hc; [|done].
  simpl. intros [= ->]. by rewrite hyphen_not_alnum in Hc.
Qed.

Lemma squeeze_no_double b s i :
  squeeze b s !! i = Some Char.hyphen →
  squeeze b s !! S i ≠ Some Char.hyphen.
Proof.
  revert b i. induction s as [|c r IH]; intros b i; simpl; [done|].
  destruct (Char.is_slug_alnum c) eqn:Hc.
  - destruct i as [|i]; simpl.
    + intros [= ->]. by rewrite hyphen_not_alnum in Hc.
    + apply IH.
  - destruct b; [apply IH|].
    destruct i as [|i]; simpl; [|apply IH].
    intros _. rewrite <-head_lookup. apply squeeze_in_run_head.
Qed.

Lemma squeeze_keeps b s c :
  c ∈ s → Char.is_slug_alnum c = true → c ∈ squeeze b s.
Proof.
  revert b. induction s as [|d r IH]; intros b Hin Hc; [by apply elem_of_nil in Hin|].
  apply elem_of_cons in Hin as [<-|Hin]; simpl.
  - rewrite Hc. left.
  - destruct (Char.is_slug_alnum d); [right; by apply IH|].
    destruct b; [|right]; by apply IH.
Qed.

Lemma squeeze_only_hyphens b s :
  Forall (λ c, Char.is_slug_alnum c = false) s →
  Forall (λ c, c = Char.hyphen) (squeeze b s).
Proof.
  intros H. revert b. induction H as [|c r Hc _ IH]; intros b; simpl; [constructor|].
  rewrite Hc. destruct b; [apply IH|]. constructor; [done | apply IH].
Qed.

End Squeeze.

Section Strip.

Lemma lstrip_drop s : ∃ k, lstrip s = drop k s.
Proof.
  induction s as [|c r [k IH]]; [by exists 0|]. simpl.
  case_bool_decide; [by exists (S k) | by exists 0].
Qed.

Lemma lstrip_head s : head (lstrip s) ≠ Some Char.hyphen.
Proof.
  induction s as [|c r IH]; simpl; [done|].
  case_bool_decide; [done|]. simpl. congruence.
Qed.

Lemma lstrip_keeps s c : c ∈ s → c ≠ Char.hyphen → c ∈ lstrip s.
Proof.
  induction s as [|d r IH]; intros Hin Hc; [done|]. simpl.
  case_bool_decide as Hd; [|done].
  apply elem_of_cons in Hin as [->|Hin]; [done | by apply IH].
Qed.

Lemma lstrip_only_hyphens s : Forall (λ c, c = Char.hyphen) s → lstrip s = [].
Proof.
  induction 1 as [|c r Hc _ IH]; simpl; [done|]. by rewrite bool_decide_eq_true_2.
Qed.

Lemma rstrip_take s : ∃ k, rstrip s = take k s.
Proof.
  unfold rstrip. destruct (lstrip_drop (reverse s)) as [k ->].
  exists (length s - k).
  by rewrite reverse_drop, length_reverse, reverse_involutive.
Qed.

Lemma rstrip_last s : last (rstrip s) ≠ Some Char.hyphen.
Proof. unfold rstrip. rewrite last_reverse. apply lstrip_head. Qed.

Lemma rstrip_keeps s c : c ∈ s → c ≠ Char.hyphen → c ∈ rstrip s.
Proof.
  intros Hin Hc. unfold rstrip. rewrite elem_of_reverse.
  apply lstrip_keeps; [|done]. by rewrite elem_of_reverse.
Qed.

(** [strip] cuts a window out of its argument. *)
Lemma strip_window s : ∃ k n, strip s = take n (drop k s).
Proof.
  unfold strip. destruct (lstrip_drop s) as [k Hk].
  destruct (rstrip_take (lstrip s)) as [n Hn].
  exists k, n. by rewrite Hn, Hk.
Qed.

Lemma strip_head s : head (strip s) ≠ Some Char.hyphen.
Proof.
  unfold strip. destruct (rstrip_take (lstrip s)) as [n ->].
  pose proof (lstrip_head s) as H.
  destruct n, (lstrip s); simpl in *; done.
Qed.

Lemma strip_last s : last (strip s) ≠ Some Char.hyphen.
Proof. apply rstrip_last. Qed.

Lemma strip_lookup s : ∃ k, ∀ j d,
  strip s !! j = Some d → s !! (k + j) = Some d.
Proof.
  destruct (strip_window s) as (k & n & ->). exists k.
  intros j d Hj. apply lookup_take_Some in Hj as [Hj _].
  by rewrite lookup_drop in Hj.
Qed.

Lemma strip_Forall (P : ascii → Prop) s : Forall P s → Forall P (strip s).
Proof.
  destruct (strip_window s) as (k & n & ->). intros H.
  by apply Forall_take, Forall_drop.
Qed.

Lemma strip_keeps s c : c ∈ s → c ≠ Char.hyphen → c ∈ strip s.
Proof. intros. by apply rstrip_keeps; [apply lstrip_keeps|]. Qed.

Lemma strip_only_hyphens s : Forall (λ c, c = Char.hyphen) s → strip s = [].
Proof. intros H. unfold strip. by rewrite lstrip_only_hyphens. Qed.

End Strip.

Lemma chars_slugify title : chars (slugify title) = slugify_chars (chars title).
Proof. unfold chars, slugify. apply list_ascii_of_string_of_list_ascii. Qed.

Lemma chars_nil s : chars s = [] ↔ s = "".
Proof. by destruct s. Qed.

Lemma slugify_chars_shape s :
  existsb Char.is_alnum s = true → slug_shape (slugify_chars s).
Proof.
  intros Hs. unfold slugify_chars.
  pose proof (squeeze_id_chars false (map Char.lower s)) as Hid.
  split.
  - apply existsb_exists in Hs as (c & Hc & Halnum).
    assert (Char.lower c ∈ strip (squeeze false (map Char.lower s))) as Hin.
    { rewrite <-lower_alnum in Halnum.
      apply strip_keeps; [|by apply slug_alnum_not_hyphen].
      apply squeeze_keeps; [|done].
      apply list_elem_of_In, in_map, Hc. }
    intros E. rewrite E in Hin. by apply elem_of_nil in Hin.
  - by apply strip_Forall.
  - apply strip_Forall. eapply Forall_impl; [exact Hid|].
    intros c. apply id_char_not_upper.
  - apply strip_head.
  - apply strip_last.
  - intros i Hi. destruct (strip_lookup (squeeze false (map Char.lower s))) as [k Hk].
    intros Hi'. apply Hk in Hi, Hi'.
    rewrite Nat.add_succ_r in Hi'. exact (squeeze_no_double _ _ _ Hi Hi').
Qed.

Lemma slugify_chars_empty s :
  existsb Char.is_alnum s = false → slugify_chars s = [].
Proof.
  intros Hs. unfold slugify_chars.
  apply strip_only_hyphens, squeeze_only_hyphens.
  apply Forall_forall. intros c Hc.
  apply list_elem_of_In, in_map_iff in Hc as (d & <- & Hd).
  rewrite lower_alnum.
  destruct (Char.is_alnum d) eqn:E; [|done].
  assert (existsb Char.is_alnum s = true) as H
    by (apply existsb_exists; eauto).
  congruence.
Qed.

(** ** [resolve_unique_id] *)

Section UniqueId.
Import Store.

Implicit Types (m : gmap string Task.t) (base : string).

Global Instance suffixed_inj base : Inj (=) (=) (suffixed base).
Proof.
  intros a b H. unfold suffixed in H.
  by apply (inj (String.app base)), (inj (String.app "-")), (inj pretty) in H.
Qed.

Lemma string_length_app (s1 s2 : string) :
  String.length (s1 +:+ s2) = (String.length s1 + String.length s2).
Proof. induction s1 as [|c s1 IH]; simpl; [done | by rewrite IH]. Qed.

Lemma suffixed_ne_base base n : suffixed base n ≠ base.
Proof.
  unfold suffixed. intros H. apply (f_equal String.length) in H.
  rewrite string_length_app in H. simpl in H. lia.
Qed.

(** No more candidates in a row can be taken than there are records. *)
Lemma taken_run_bound m base n d :
  (∀ j, (j < d) → is_Some (m !! suffixed base (n + j))) → (d ≤ size m).
Proof.
  intros H.
  set (l := suffixed base <$> seq n d).
  assert (NoDup l) as Hnd by (apply (NoDup_fmap_2 _), NoDup_seq).
  assert (length l = d) as Hlen by (unfold l; by rewrite length_fmap, length_seq).
  rewrite <-Hlen.
  rewrite <-(size_list_to_set (C:=gset string) l), <-(size_dom (D:=gset string) m) by done.
  apply subseteq_size. intros x Hx.
  apply elem_of_list_to_set, list_elem_of_fmap in Hx as (i & -> & Hi).
  apply elem_of_seq in Hi. apply elem_of_dom.
  replace i with (n + (i - n)) by lia. apply H. lia.
Qed.

Lemma next_free_steps fuel m base n :
  ∃ d, (d ≤ fuel) ∧
    next_free fuel m base n = suffixed base (n + d) ∧
    (∀ j, (j < d) → is_Some (m !! suffixed base (n + j))) ∧
    ((d < fuel) → m !! suffixed base (n + d) = None).
Proof.
  revert n. induction fuel as [|fuel IH]; intros n; simpl.
  - exists 0. rewrite Nat.add_0_r. repeat split; [done | lia | lia].
  - case_bool_decide as Hn.
    + destruct (IH (S n)) as (d & Hd & -> & Hrun & Hfree).
      exists (S d). rewrite Nat.add_succ_r. repeat split; [lia | | ].
      * intros [|j] Hj; [by rewrite Nat.add_0_r|].
        rewrite Nat.add_succ_r. apply Hrun. lia.
      * intros ?. apply Hfree. lia.
    + exists 0. rewrite Nat.add_0_r. repeat split; [lia | lia |].
      intros _. by apply eq_None_not_Some.
Qed.

(** The fuel [unique_id] gives the loop is never used up. *)
Lemma next_free_spec m base :
  ∃ n, (2 ≤ n) ∧
    next_free (S (size m)) m base 2 = suffixed base n ∧
    m !! suffixed base n = None ∧
    (∀ j, (2 ≤ j < n) → is_Some (m !! suffixed base j)).
Proof.
  destruct (next_free_steps (S (size m)) m base 2) as (d & Hd & E & Hrun & Hfree).
  pose proof (taken_run_bound m base 2 d Hrun).
  exists (2 + d). repeat split; [lia | done | apply Hfree; lia |].
  intros j Hj. replace j with (2 + (j - 2)) by lia. apply Hrun. lia.
Qed.

Lemma unique_id_free m base : m !! unique_id m base = None.
Proof.
  unfold unique_id. case_bool_decide as Hb.
  - by destruct (next_free_spec m base) as (n & _ & -> & ? & _).
  - by apply eq_None_not_Some.
Qed.

Lemma unique_id_fresh_base m base :
  m !! base = None → unique_id m base = base.
Proof.
  intros H. unfold unique_id. rewrite bool_decide_eq_false_2; [done|].
  rewrite H. by intros [? ?].
Qed.

Lemma unique_id_taken_base m base :
  is_Some (m !! base) →
  ∃ n, (2 ≤ n) ∧ unique_id m base = suffixed base n ∧
    m !! suffixed base n = None ∧
    (∀ j, (2 ≤ j < n) → is_Some (m !! suffixed base j)).
Proof.
  intros H. unfold unique_id. rewrite bool_decide_eq_true_2 by done.
  apply next_free_spec.
Qed.

End UniqueId.

(** ** Sorting by key *)

Section SortBy.
Context {A : Type} (key : A → nat).

Lemma insert_by_perm x l : Cli.insert_by key x l ≡ₚ x :: l.
Proof.
  induction l as [|y r IH]; simpl; [done|].
  case_decide; [done|]. by rewrite IH, Permutation_swap.
Qed.

Lemma sort_by_perm l : Cli.sort_by key l ≡ₚ l.
Proof.
  induction l as [|x r IH]; simpl; [done|]. by rewrite insert_by_perm, IH.
Qed.

Lemma insert_by_sorted x l :
  StronglySorted (key_le key) l → StronglySorted (key_le key) (Cli.insert_by key x l).
Proof.
  induction 1 as [|y r Hr IH Hy]; simpl; [by repeat constructor|].
  case_decide as Hxy.
  - constructor; [by constructor|]. constructor; [done|].
    eapply Forall_impl; [exact Hy|]. unfold key_le. intros; lia.
  - constructor; [done|].
    rewrite insert_by_perm. constructor; [unfold key_le; lia | done].
Qed.

Lemma sort_by_sorted l : StronglySorted (key_le key) (Cli.sort_by key l).
Proof.
  induction l as [|x r IH]; simpl; [constructor | by apply insert_by_sorted].
Qed.

Lemma sorted_lookup_le l i j a b :
  StronglySorted (key_le key) l →
  l !! i = Some a → l !! j = Some b → (i < j) → key_le key a b.
Proof.
  intros Hs. revert i j. induction Hs as [|x r Hr IH Hx]; intros i j Hi Hj Hij; [done|].
  destruct j as [|j]; [lia|]. simpl in Hj. destruct i as [|i]; simpl in Hi.
  - injection Hi as <-. eapply Forall_forall; [exact Hx|].
    by eapply list_elem_of_lookup_2.
  - apply (IH i j); [done | done | lia].
Qed.

(** In a list sorted by key, a smaller key stands at a smaller index. *)
Lemma sort_by_before l i j a b :
  Cli.sort_by key l !! i = Some a → Cli.sort_by key l !! j = Some b →
  (key a < key b) → (i < j).
Proof.
  intros Hi Hj Hab. destruct (decide (i < j)) as [|Hge]; [done|].
  destruct (decide (i = j)) as [->|Hne].
  - rewrite Hi in Hj. injection Hj as ->. lia.
  - assert (key_le key b a) as Hba; [|unfold key_le in Hba; lia].
    apply (sorted_lookup_le _ j i b a (sort_by_sorted l)); [done | done | lia].
Qed.

(** The sort is stable: the elements of one key keep their order. *)
Lemma insert_by_filter_key x l k :
  filter (λ a, key a = k) (Cli.insert_by key x l)
  = filter (λ a, key a = k) (x :: l).
Proof.
  induction l as [|y r IH]; simpl; [done|].
  case_decide as Hxy; [done|].
  rewrite (filter_cons _ y), IH, !(filter_cons _ x), !(filter_cons _ y).
  repeat case_decide; try done. lia.
Qed.

Lemma sort_by_stable l k :
  filter (λ a, key a = k) (Cli.sort_by key l) = filter (λ a, key a = k) l.
Proof.
  induction l as [|x r IH]; simpl; [done|].
  by rewrite insert_by_filter_key, !filter_cons, IH.
Qed.

(** Sorted and stable determine the result: whatever algorithm
    [list.sort] runs, it returns what [sort_by] returns. *)
Lemma stable_sorted_unique l1 l2 :
  StronglySorted (key_le key) l1 → StronglySorted (key_le key) l2 →
  (∀ k, filter (λ a, key a = k) l1 = filter (λ a, key a = k) l2) →
  l1 = l2.
Proof.
  intros Hs1. revert l2.
  induction Hs1 as [|x r1 _ IH Hx]; intros l2 Hs2 Heq.
  - destruct l2 as [|y r2]; [done|].
    specialize (Heq (key y)). rewrite filter_nil, filter_cons_True in Heq; done.
  - destruct l2 as [|y r2].
    { specialize (Heq (key x)). rewrite filter_nil, filter_cons_True in Heq; done. }
    apply StronglySorted_inv in Hs2 as [Hs2 Hy].
    assert (key x = key y) as Hxy.
    { assert (key_le key x y) as Hle1.
      { assert (y ∈ x :: r1) as Hin.
        { eapply (list_elem_of_filter (λ a, key a = key y)).
          rewrite (Heq (key y)), filter_cons_True by done. left. }
        apply elem_of_cons in Hin as [->|Hin]; [by unfold key_le|].
        by eapply Forall_forall in Hx. }
      assert (key_le key y x) as Hle2.
      { assert (x ∈ y :: r2) as Hin.
        { eapply (list_elem_of_filter (λ a, key a = key x)).
          rewrite <-(Heq (key x)), filter_cons_True by done. left. }
        apply elem_of_cons in Hin as [->|Hin]; [by unfold key_le|].
        by eapply Forall_forall in Hy. }
      unfold key_le in *. lia. }
    assert (x = y) as <-.
    { specialize (Heq (key x)).
      rewrite !filter_cons_True in Heq by done. by injection Heq. }
    f_equal. apply IH; [done|]. intros k. specialize (Heq k).
    rewrite !(filter_cons _ x) in Heq. case_decide; [by injection Heq | done].
Qed.

Lemma sort_by_unique l l' :
  StronglySorted (key_le key) l' →
  (∀ k, filter (λ a, key a = k) l' = filter (λ a, key a = k) l) →
  l' = Cli.sort_by key l.
Proof.
  intros Hs Hst. apply stable_sorted_unique; [done | apply sort_by_sorted |].
  intros k. by rewrite Hst, sort_by_stable.
Qed.

End SortBy.

(** ** The order of the states *)

Lemma sort_key_state t : Cli.sort_key t = state_key (Task.state t).
Proof. reflexivity. Qed.

Lemma state_key_valid i s : VALID_STATES !! i = Some s → state_key s = i.
Proof.
  do 4 (destruct i as [|i]; [intros [= <-]; by vm_compute|]). done.
Qed.

Lemma precedes_key s1 s2 : precedes s1 s2 → (state_key s1 < state_key s2).
Proof.
  intros (i & j & Hi & Hj & Hij).
  by rewrite (state_key_valid _ _ Hi), (state_key_valid _ _ Hj).
Qed.

Lemma precedes_chain :
  precedes "focus" "active" ∧ precedes "active" "later" ∧ precedes "later" "done".
Proof.
  repeat split.
  - exists 0, 1. repeat split; lia.
  - exists 1, 2. repeat split; lia.
  - exists 2, 3. repeat split; lia.
Qed.

(** ** Running commands *)

Lemma bind_run {A B} (m : cmd A) (f : A → cmd B) w :
  (m ≫= f) w = match m w with
               | (Ok a, w') => f a w'
               | (Raise e, w') => (Raise e, w')
               end.
Proof. reflexivity. Qed.

Lemma nonempty_Some s : s ≠ "" → nonempty (Some s) = Some s.
Proof. by destruct s. Qed.

Lemma nonempty_Some_inv o s : nonempty o = Some s → o = Some s ∧ s ≠ "".
Proof. destruct o as [[|c r]|]; simpl; intros [= <-]; done. Qed.

Lemma stored_tasks_elem w t :
  t ∈ stored_tasks w ↔ ∃ k, tasks w !! k = Some t.
Proof.
  unfold stored_tasks. rewrite list_elem_of_fmap. split.
  - intros ([k t'] & -> & H). exists k. by apply elem_of_map_to_list.
  - intros [k H]. exists (k, t). split; [done|]. by apply elem_of_map_to_list.
Qed.

Lemma for_each_echo {A} (f : A → string) (l : list A) w :
  for_each l (λ a, echo (f a)) w = (Ok (), prints (Line ∘ f <$> l) w).
Proof.
  revert w. induction l as [|a r IH]; intros w; simpl.
  - unfold_cmd. destruct w; unfold prints, with_stdout; simpl.
    by rewrite app_nil_r.
  - unfold_cmd. rewrite IH. unfold prints, with_stdout; simpl.
    by rewrite <-app_assoc.
Qed.

(** ** Creating a task under an id that is taken *)

(** C2. [add] with a custom id that names a record raises the "already
    exists" exception and leaves the world as it was: no record is written,
    the one under that id is untouched, nothing is printed. (A custom id is
    one Python takes as true: [--id ""] is no custom id.) *)
Theorem add_existing_id_rejected w root title parent state custom_id t :
  td_root w = Some root →
  custom_id ≠ "" →
  tasks w !! custom_id = Some t →
  Cli.add title parent state (Some custom_id) w
  = (Raise (ClickException ("Task ID '" +:+ custom_id +:+ "' already exists.")), w).
Proof.
  intros Hroot Hne Ht.
  unfold Cli.add. unfold_cmd. rewrite Hroot, (nonempty_Some _ Hne).
  by rewrite bool_decide_eq_true_2 by (by rewrite Ht).
Qed.

Lemma add_existing_id_rejected_witness :
  td_root w_demo = Some "/home/u/proj" ∧
  "fix-login" ≠ "" ∧
  tasks w_demo !! "fix-login" = Some fix_login ∧
  Cli.add "Login again" None None (Some "fix-login") w_demo
  = (Raise (ClickException "Task ID 'fix-login' already exists."), w_demo).
Proof.
  assert ("fix-login" ≠ "") as Hne by discriminate.
  assert (tasks w_demo !! "fix-login" = Some fix_login) as H
    by (vm_compute; reflexivity).
  split; [reflexivity|]. split; [exact Hne|]. split; [exact H|].
  exact (add_existing_id_rejected w_demo "/home/u/proj" "Login again" None None
           "fix-login" fix_login eq_refl Hne H).
Defined.

(** ** Moving a task to another state *)

Lemma set_state_run w root task_id target t :
  td_root w = Some root →
  tasks w !! task_id = Some t →
  Cli._set_state task_id target w
  = (Ok (), prints [Line (task_id +:+ " → " +:+ target)]
              (with_tasks (<[Task.id t := moved target (clock w) t]> (tasks w)) w)).
Proof.
  intros Hroot Ht. unfold Cli._set_state. unfold_cmd. by rewrite Hroot, Ht.
Qed.

(** C5. [focus], [active], [later] and [done] on a stored task return, and
    the world they leave holds, under the task's id, the task with [state]
    set to the target and [updated] set to the clock's reading; [id],
    [title], [parent], [notes] and [created] are the loaded ones, and
    loading the id again gives that task. *)
Theorem set_state_frame w root command target task_id t :
  (command, target) ∈ transitions →
  td_root w = Some root →
  tasks w !! task_id = Some t →
  ∃ w' t',
    command task_id w = (Ok (), w') ∧
    tasks w' = <[Task.id t := t']> (tasks w) ∧
    Store.load_task root (Task.id t) w' = (Ok t', w') ∧
    Task.state t' = target ∧
    Task.updated t' = clock w ∧
    Task.id t' = Task.id t ∧
    Task.title t' = Task.title t ∧
    Task.parent t' = Task.parent t ∧
    Task.notes t' = Task.notes t ∧
    Task.created t' = Task.created t.
Proof.
  intros Hcmd Hroot Ht.
  assert (command task_id w = Cli._set_state task_id target w) as ->.
  { unfold transitions in Hcmd.
    repeat (apply elem_of_cons in Hcmd as [[= -> ->]|Hcmd]; [done|]).
    by apply elem_of_nil in Hcmd. }
  rewrite (set_state_run w root task_id target t Hroot Ht).
  eexists _, (moved target (clock w) t). split; [done|].
  split; [done|]. split; [|by repeat split].
  unfold Store.load_task. simpl. by rewrite lookup_insert_eq.
Qed.

Lemma set_state_frame_witness :
  ∃ w' t',
    Cli.done "fix-login" w_demo = (Ok (), w') ∧
    tasks w' = <[Task.id fix_login := t']> (tasks w_demo) ∧
    Store.load_task "/home/u/proj" (Task.id fix_login) w' = (Ok t', w') ∧
    Task.state t' = "done" ∧
    Task.updated t' = clock w_demo ∧
    Task.id t' = Task.id fix_login ∧
    Task.title t' = Task.title fix_login ∧
    Task.parent t' = Task.parent fix_login ∧
    Task.notes t' = Task.notes fix_login ∧
    Task.created t' = Task.created fix_login.
Proof.
  apply (set_state_frame w_demo "/home/u/proj" Cli.done "done" "fix-login" fix_login).
  - unfold transitions. do 3 right. left.
  - reflexivity.
  - vm_compute. reflexivity.
Defined.

(** ** Removing a task *)

(** C6. [rm] loads the task before anything else. For an id without a
    record it raises [NotFound] and the world is as before: no question has
    been asked, no answer read, no record touched. For a stored id, without
    [--force], any answer but "yes" raises [Abort] after the question, and
    the records are as before; with "yes", or with [--force], exactly the
    record of that id is removed. *)
Theorem rm_checks_before_deleting w root id :
  td_root w = Some root →
  (tasks w !! id = None →
     ∀ force, Cli.rm id force w = (Raise (NotFound id), w)) ∧
  (is_Some (tasks w !! id) →
     (head (stdin w) ≠ Some true →
        ∃ w', Cli.rm id false w = (Raise Abort, w') ∧
              tasks w' = tasks w ∧
              stdout w' = stdout w ++ [Prompt ("Delete task '" +:+ id +:+ "'?")]) ∧
     (head (stdin w) = Some true →
        ∃ w', Cli.rm id false w = (Ok (), w') ∧
              tasks w' = delete id (tasks w)) ∧
     (∃ w', Cli.rm id true w = (Ok (), w') ∧
            tasks w' = delete id (tasks w) ∧
            stdin w' = stdin w)).
Proof.
  intros Hroot. split.
  - intros Hnone force. unfold Cli.rm. unfold_cmd. by rewrite Hroot, Hnone.
  - intros [t Ht]. repeat split.
    + intros Hno. unfold Cli.rm, confirm. unfold_cmd. rewrite Hroot, Ht. simpl.
      destruct (stdin w) as [|[] rest]; [| done |]; eauto.
    + intros Hyes. unfold Cli.rm, confirm. unfold_cmd. rewrite Hroot, Ht. simpl.
      destruct (stdin w) as [|[] rest]; [done | | done].
      simpl. rewrite Ht. eauto.
    + unfold Cli.rm. unfold_cmd. rewrite Hroot, Ht. simpl. rewrite Ht. eauto.
Qed.

Lemma rm_checks_before_deleting_witness :
  td_root w_asked_no = Some "/home/u/proj" ∧
  tasks w_asked_no !! "fix" = None ∧
  is_Some (tasks w_asked_no !! "fix-login") ∧
  head (stdin w_asked_no) ≠ Some true ∧
  Cli.rm "fix" false w_asked_no = (Raise (NotFound "fix"), w_asked_no) ∧
  ∃ w', Cli.rm "fix-login" false w_asked_no = (Raise Abort, w') ∧
        tasks w' = tasks w_asked_no ∧
        stdout w' = stdout w_asked_no ++ [Prompt "Delete task 'fix-login'?"].
Proof.
  assert (tasks w_asked_no !! "fix" = None) as Hnone by (vm_compute; reflexivity).
  assert (is_Some (tasks w_asked_no !! "fix-login")) as Hsome
    by (exists fix_login; vm_compute; reflexivity).
  assert (head (stdin w_asked_no) ≠ Some true) as Hno by (simpl; congruence).
  split; [reflexivity|]. split; [exact Hnone|]. split; [exact Hsome|].
  split; [exact Hno|]. split.
  - exact (proj1 (rm_checks_before_deleting w_asked_no "/home/u/proj" "fix" eq_refl)
             Hnone false).
  - exact (proj1 (proj2 (rm_checks_before_deleting w_asked_no "/home/u/proj"
                           "fix-login" eq_refl) Hsome) Hno).
Defined.

(** ** Listing *)

Lemma ls_cmd_run w root filter_state show_all as_json :
  td_root w = Some root →
  let rows := Cli.ls_select filter_state show_all (stored_tasks w) in
  Cli.ls_cmd filter_state show_all as_json w
  = (Ok (), prints (if as_json then [Json (Cli.json_entry <$> rows)]
                    else ls_table rows) w).
Proof.
  intros Hroot rows. unfold Cli.ls_cmd.
  unfold mbind, cmd_bind, Store.find_td_root, Store.load_all_tasks.
  rewrite Hroot. fold (stored_tasks w). fold rows.
  destruct as_json; [done|].
  unfold ls_table. destruct rows as [|r rows']; [done|].
  set (l := r :: rows').
  unfold echo at 1. rewrite for_each_echo. unfold prints, with_stdout. simpl.
  by rewrite <-app_assoc.
Qed.

Lemma ls_select_sorted filter_state show_all ts :
  ∃ kept, Cli.ls_select filter_state show_all ts = Cli.sort_by Cli.sort_key kept.
Proof. unfold Cli.ls_select. eauto. Qed.

(** C3. Whatever the filter and the [--all] flag, [ls] prints the selected
    tasks in the order of [ls_select], and among them a task whose state is
    listed earlier in [focus, active, later, done] stands before every task
    whose state is listed later: focus before active, active before later,
    later before done. *)
Theorem ls_orders_by_state w root filter_state show_all :
  td_root w = Some root →
  let rows := Cli.ls_select filter_state show_all (stored_tasks w) in
  Cli.ls_cmd filter_state show_all false w = (Ok (), prints (ls_table rows) w) ∧
  Cli.ls_cmd filter_state show_all true w
  = (Ok (), prints [Json (Cli.json_entry <$> rows)] w) ∧
  (precedes "focus" "active" ∧ precedes "active" "later" ∧
   precedes "later" "done") ∧
  ∀ i j a b,
    rows !! i = Some a → rows !! j = Some b →
    precedes (Task.state a) (Task.state b) → (i < j).
Proof.
  intros Hroot rows.
  split; [exact (ls_cmd_run w root filter_state show_all false Hroot)|].
  split; [exact (ls_cmd_run w root filter_state show_all true Hroot)|].
  split; [exact precedes_chain|].
  intros i j a b Hi Hj Hab. subst rows.
  destruct (ls_select_sorted filter_state show_all (stored_tasks w)) as [kept E].
  rewrite E in Hi, Hj.
  apply (sort_by_before Cli.sort_key kept i j a b Hi Hj).
  rewrite !sort_key_state. by apply precedes_key.
Qed.

(** C4. Without a state filter and without [--all], the tasks [ls] selects
    are the stored tasks whose state is not [done], each as often as it is
    stored; after adding A (active), B (done) and C (focus) to an empty
    project these are C and A. *)
Theorem ls_default_hides_done :
  (∀ ts, Cli.ls_select None false ts ≡ₚ filter (λ t, Task.state t ≠ "done") ts) ∧
  (∀ w t, t ∈ Cli.ls_select None false (stored_tasks w)
          ↔ t ∈ stored_tasks w ∧ Task.state t ≠ "done") ∧
  (∃ w, add_A_B_C w_empty = (Ok (), w) ∧
        stored_tasks w ≡ₚ [task_A; task_B; task_C] ∧
        Cli.ls_select None false (stored_tasks w) = [task_C; task_A]).
Proof.
  assert (∀ ts, Cli.ls_select None false ts
                ≡ₚ filter (λ t, Task.state t ≠ "done") ts) as Hperm.
  { intros ts. unfold Cli.ls_select. simpl. apply sort_by_perm. }
  split; [exact Hperm|]. split.
  - intros w t. by rewrite Hperm, list_elem_of_filter, (comm and).
  - eexists. split; [vm_compute; reflexivity|]. split.
    + vm_compute. apply Permutation_sym.
      apply (Permutation_cons_app [_] [_]). apply perm_swap.
    + vm_compute. reflexivity.
Qed.

Lemma ls_orders_by_state_witness :
  td_root w_abc = Some "/home/u/proj" ∧
  Cli.ls_select None true (stored_tasks w_abc) !! 0 = Some task_C ∧
  Cli.ls_select None true (stored_tasks w_abc) !! 1 = Some task_A ∧
  precedes (Task.state task_C) (Task.state task_A) ∧
  (0 < 1).
Proof.
  assert (Cli.ls_select None true (stored_tasks w_abc) !! 0 = Some task_C)
    as H0 by (vm_compute; reflexivity).
  assert (Cli.ls_select None true (stored_tasks w_abc) !! 1 = Some task_A)
    as H1 by (vm_compute; reflexivity).
  assert (precedes (Task.state task_C) (Task.state task_A)) as Hp.
  { exists 0, 1. repeat split. simpl. lia. }
  split; [reflexivity|]. split; [exact H0|]. split; [exact H1|].
  split; [exact Hp|].
  exact (proj2 (proj2 (proj2
    (ls_orders_by_state w_abc "/home/u/proj" None true eq_refl)))
    0 1 task_C task_A H0 H1 Hp).
Defined.

(** ** The tree *)

Lemma prints_nil w : prints [] w = w.
Proof. destruct w. unfold prints, with_stdout. simpl. by rewrite app_nil_r. Qed.

Lemma prints_prints l1 l2 w : prints l2 (prints l1 w) = prints (l1 ++ l2) w.
Proof. unfold prints, with_stdout. simpl. by rewrite app_assoc. Qed.

Lemma task_map_of_lookup l k x :
  Cli.task_map_of l !! k = Some x → x ∈ l ∧ Task.id x = k.
Proof.
  unfold Cli.task_map_of.
  assert (∀ d : gmap string Task.t,
            foldl (λ d t, <[Task.id t := t]> d) d l !! k = Some x →
            (x ∈ l ∧ Task.id x = k) ∨ d !! k = Some x) as H.
  { induction l as [|t r IH]; intros d Hd; simpl in Hd; [by right|].
    destruct (IH _ Hd) as [[Hin Hid]|Hd'].
    - left. split; [by right | done].
    - destruct (decide (Task.id t = k)) as [E|E].
      + rewrite E, lookup_insert_eq in Hd'. injection Hd' as <-.
        left. split; [left | done].
      + rewrite lookup_insert_ne in Hd' by done. by right. }
  intros Hk. destruct (H ∅ Hk) as [?|Hempty]; [done|].
  by rewrite lookup_empty in Hempty.
Qed.

Lemma children_of_Forall (P : Task.t → Prop) l p cs :
  Forall P l → Cli.children_of l !! p = Some cs → Forall P cs.
Proof.
  unfold Cli.children_of. intros Hl.
  assert (∀ d : gmap (option string) (list Task.t),
            (∀ q ds, d !! q = Some ds → Forall P ds) →
            ∀ q ds,
              foldl (λ d t, <[Task.parent t :=
                               default [] (d !! Task.parent t) ++ [t]]> d) d l
                !! q = Some ds → Forall P ds) as H.
  { induction Hl as [|t r Ht _ IH]; intros d Hd q ds; simpl; [apply Hd|].
    apply IH. intros q' ds' Hq'.
    destruct (decide (Task.parent t = q')) as [E|E].
    - rewrite E, lookup_insert_eq in Hq'. injection Hq' as <-.
      apply Forall_app. split; [|by constructor].
      destruct (d !! q') as [old|] eqn:Hold; simpl; [by eapply Hd | constructor].
    - rewrite lookup_insert_ne in Hq' by done. by eapply Hd. }
  apply H. intros q ds Hq. by rewrite lookup_empty in Hq.
Qed.

(** Whatever [print_tree] does, returning or running out of stack, what it
    has printed are lines of tasks taken from [children]. *)
Lemma print_tree_rows (P : Task.t → Prop) depth children parent_id indent w :
  (∀ q ds, children !! q = Some ds → Forall P ds) →
  ∃ res rows,
    Cli.print_tree depth children parent_id indent w
    = (res, prints (tree_lines rows) w) ∧
    Forall (λ r, P r.2) rows.
Proof.
  intros Hch. revert parent_id indent w.
  induction depth as [|depth IH]; intros parent_id indent w; simpl.
  - exists (Raise RecursionError), []. split; [|constructor].
    unfold mthrow, cmd_throw. by rewrite prints_nil.
  - assert (Forall P (default [] (children !! parent_id))) as Hcs.
    { destruct (children !! parent_id) eqn:E; simpl; [by eapply Hch | constructor]. }
    revert w. induction Hcs as [|t r Ht _ IHr]; intros w; simpl.
    + exists (Ok ()), []. split; [|constructor]. unfold mret, cmd_ret.
      by rewrite prints_nil.
    + rewrite bind_run. cbv beta. rewrite bind_run. unfold echo at 1.
      fold (prints [Line (Cli.tree_line indent t)] w).
      destruct (IH (Some (Task.id t)) (S indent)
                  (prints [Line (Cli.tree_line indent t)] w))
        as (res1 & rows1 & -> & Hrows1).
      rewrite prints_prints.
      destruct res1 as [[]|e].
      * destruct (IHr (prints ([Line (Cli.tree_line indent t)] ++ tree_lines rows1) w))
          as (res2 & rows2 & -> & Hrows2).
        rewrite prints_prints.
        exists res2, ((indent, t) :: rows1 ++ rows2). split.
        -- unfold tree_lines. by rewrite fmap_cons, fmap_app, <-app_assoc.
        -- constructor; [done | by apply Forall_app].
      * exists (Raise e), ((indent, t) :: rows1). split; [done|].
        by constructor.
Qed.

Lemma not_done_Forall w :
  Forall (λ t, t ∈ stored_tasks w ∧ Task.state t ≠ "done")
         (filter (λ t, Task.state t ≠ "done") (stored_tasks w)).
Proof.
  apply Forall_forall. intros t Ht. by apply list_elem_of_filter in Ht as [? ?].
Qed.

Lemma tree_run w root id :
  td_root w = Some root →
  let shown := filter (λ t, Task.state t ≠ "done") (stored_tasks w) in
  Cli.tree id w
  = match nonempty id with
    | Some id =>
        match Cli.task_map_of shown !! id with
        | None => (Raise (ClickException ("Task '" +:+ id +:+ "' not found.")), w)
        | Some t =>
            Cli.print_tree (stack_limit w) (Cli.children_of shown) (Some id) 1
              (prints [Line (Cli.tree_line 0 t)] w)
        end
    | None => Cli.print_tree (stack_limit w) (Cli.children_of shown) None 0 w
    end.
Proof.
  intros Hroot shown. unfold Cli.tree.
  unfold mbind, cmd_bind, Store.find_td_root, Store.load_all_tasks, get_stack_limit.
  rewrite Hroot. fold (stored_tasks w). fold shown.
  destruct (nonempty id) as [i|]; [|done].
  by destruct (Cli.task_map_of shown !! i).
Qed.

(** C10. In a project whose records are named by their ids, [tree] with the
    id of a stored task whose state is [done] raises the "not found"
    exception and prints nothing, although the task is stored; and with any
    argument, whether it returns or raises, every line [tree] prints is the
    line of a stored task whose state is not [done]. *)
Theorem tree_hides_done w root :
  td_root w = Some root →
  store_wf (tasks w) →
  (∀ t, t ∈ stored_tasks w → Task.state t = "done" →
     Cli.tree (Some (Task.id t)) w
     = (Raise (ClickException ("Task '" +:+ Task.id t +:+ "' not found.")), w)) ∧
  (∀ id, ∃ res rows,
     Cli.tree id w = (res, prints (tree_lines rows) w) ∧
     Forall (λ r, r.2 ∈ stored_tasks w ∧ Task.state r.2 ≠ "done") rows).
Proof.
  intros Hroot Hwf. split.
  - intros t Hin Hdone. rewrite (tree_run w root _ Hroot).
    apply stored_tasks_elem in Hin as [k Hk].
    destruct (Hwf _ _ Hk) as [Hid Hne]. subst k.
    rewrite (nonempty_Some _ Hne).
    destruct (Cli.task_map_of _ !! Task.id t) as [x|] eqn:Hx; [|done].
    apply task_map_of_lookup in Hx as [Hx Hidx].
    apply list_elem_of_filter in Hx as [Hstate Hx].
    apply stored_tasks_elem in Hx as [k' Hk'].
    destruct (Hwf _ _ Hk') as [Hid' _]. subst k'.
    rewrite Hidx, Hk in Hk'. injection Hk' as ->. done.
  - intros id. rewrite (tree_run w root _ Hroot).
    set (P := λ t, t ∈ stored_tasks w ∧ Task.state t ≠ "done").
    set (shown := filter (λ t, Task.state t ≠ "done") (stored_tasks w)).
    assert (∀ q ds, Cli.children_of shown !! q = Some ds → Forall P ds) as Hch.
    { intros q ds. apply children_of_Forall, not_done_Forall. }
    destruct (nonempty id) as [i|].
    + destruct (Cli.task_map_of shown !! i) as [t|] eqn:Ht.
      * apply task_map_of_lookup in Ht as [Ht _].
        destruct (print_tree_rows P (stack_limit w) _ (Some i) 1
                    (prints [Line (Cli.tree_line 0 t)] w) Hch)
          as (res & rows & -> & Hrows).
        exists res, ((0, t) :: rows). rewrite prints_prints. split; [done|].
        constructor; [|done]. simpl.
        by apply list_elem_of_filter in Ht as [? ?].
      * exists (Raise (ClickException ("Task '" +:+ i +:+ "' not found."))), [].
        split; [by rewrite prints_nil | constructor].
    + destruct (print_tree_rows P (stack_limit w) _ None 0 w Hch)
        as (res & rows & -> & Hrows). by exists res, rows.
Qed.

Lemma tree_hides_done_witness :
  td_root w_abc = Some "/home/u/proj" ∧
  task_B ∈ stored_tasks w_abc ∧
  Task.state task_B = "done" ∧
  Cli.tree (Some "b") w_abc
  = (Raise (ClickException "Task 'b' not found."), w_abc).
Proof.
  assert (tasks w_abc
          = <["c" := task_C]> (<["b" := task_B]> (<["a" := task_A]> ∅))) as E
    by (vm_compute; reflexivity).
  assert (store_wf (tasks w_abc)) as Hwf.
  { rewrite E. intros k t H.
    repeat (apply lookup_insert_Some in H as [[<- <-]|[_ H]]; [done|]).
    by rewrite lookup_empty in H. }
  assert (task_B ∈ stored_tasks w_abc) as Hin.
  { apply stored_tasks_elem. exists "b". rewrite E. vm_compute. reflexivity. }
  split; [reflexivity|]. split; [exact Hin|]. split; [reflexivity|].
  exact (proj1 (tree_hides_done w_abc "/home/u/proj" eq_refl Hwf)
           task_B Hin eq_refl).
Defined.

(** ** Resolving the id a user types *)

(** C7, as amended. A command that takes the id of one task looks the
    typed identifier up as it is: when no record has exactly that name the
    command raises [NotFound] with the typed identifier and leaves the world
    as it was, whatever stored ids the identifier is a prefix of. *)
Theorem typed_id_is_exact w root command typed :
  resolving command →
  td_root w = Some root →
  tasks w !! typed = None →
  command typed w = (Raise (NotFound typed), w).
Proof.
  intros Hcmd Hroot Hnone.
  destruct Hcmd;
    unfold Cli.focus, Cli.active, Cli.later, Cli.done, Cli._set_state,
      Cli.show, Cli.edit, Cli.mv, Cli.rm;
    unfold_cmd; by rewrite Hroot, Hnone.
Qed.

Lemma typed_id_is_exact_witness :
  resolving Cli.focus ∧
  td_root w_two = Some "/home/u/proj" ∧
  tasks w_two !! "fix" = None ∧
  Cli.focus "fix" w_two = (Raise (NotFound "fix"), w_two).
Proof.
  assert (tasks w_two !! "fix" = None) as H by (vm_compute; reflexivity).
  split; [constructor|]. split; [reflexivity|]. split; [exact H|].
  exact (typed_id_is_exact w_two "/home/u/proj" Cli.focus "fix"
           resolving_focus eq_refl H).
Defined.

(** C7, as the spec has it, fails: with [fix-login] the only stored id,
    [show fix] does not show it but raises [NotFound]; resolution by prefix
    is not what [show] does. *)
Lemma prefix_is_not_resolved :
  (∀ k, is_Some (tasks w_demo !! k) ↔ k = "fix-login") ∧
  String.prefix "fix" "fix-login" = true ∧
  Cli.show "fix" w_demo = (Raise (NotFound "fix"), w_demo) ∧
  (Cli.show "fix-login" w_demo).1 = Ok () ∧
  ¬ resolves_unique_prefix Cli.show.
Proof.
  assert (∀ k, is_Some (tasks w_demo !! k) ↔ k = "fix-login") as Hdom.
  { intros k. simpl. rewrite lookup_singleton_is_Some. naive_solver. }
  assert (Cli.show "fix" w_demo = (Raise (NotFound "fix"), w_demo)) as Hshow
    by (vm_compute; reflexivity).
  assert ((Cli.show "fix-login" w_demo).1 = Ok ()) as Hfull
    by (vm_compute; reflexivity).
  repeat split; try done; try apply Hdom; try (by intros ->).
  intros Hclaim.
  specialize (Hclaim w_demo "fix" "fix-login").
  rewrite Hshow in Hclaim. rewrite <-Hclaim in Hfull; [done|..].
  - by eexists.
  - by apply Hdom.
  - intros k Hk _. by apply Hdom.
  - reflexivity.
Qed.

(** ** Slugs and the ids made of them *)

Lemma slugify_empty_iff title : slugify title = "" ↔ has_alnum title = false.
Proof.
  rewrite <-chars_nil, chars_slugify. unfold has_alnum. split.
  - intros E. destruct (existsb Char.is_alnum (chars title)) eqn:H; [|done].
    by destruct (slug_nonempty _ (slugify_chars_shape _ H)).
  - apply slugify_chars_empty.
Qed.

Lemma add_rejects_empty_slug w root title parent state custom_id :
  td_root w = Some root →
  nonempty custom_id = None →
  slugify title = "" →
  Cli.add title parent state custom_id w
  = (Raise (ClickException "Title must produce a valid slug."), w).
Proof.
  intros Hroot Hid Hslug. unfold Cli.add. unfold_cmd.
  by rewrite Hroot, Hid, Hslug.
Qed.

(** C8, as amended. A title with a letter or a digit has a slug that is
    not empty, is made of lowercase letters, digits and hyphens only,
    neither starts nor ends with a hyphen and has no two hyphens in a row.
    A title without one, such as [""] and ["!!!"], has the slug [""], and
    [add], when no custom id is given, raises "Title must produce a valid
    slug." for such a title and leaves the world as it was. *)
Theorem slugify_spec title :
  (has_alnum title = true →
     slugify title ≠ "" ∧ slug_shape (chars (slugify title))) ∧
  (has_alnum title = false →
     slugify title = "" ∧
     ∀ w root parent state custom_id,
       td_root w = Some root →
       nonempty custom_id = None →
       Cli.add title parent state custom_id w
       = (Raise (ClickException "Title must produce a valid slug."), w)) ∧
  slugify "" = "" ∧ slugify "!!!" = "".
Proof.
  split; [|split; [|by vm_compute]].
  - intros H. split.
    + rewrite slugify_empty_iff. by rewrite H.
    + rewrite chars_slugify. by apply slugify_chars_shape.
  - intros H. apply slugify_empty_iff in H. split; [done|].
    intros w root parent state custom_id Hroot Hid.
    by apply (add_rejects_empty_slug w root).
Qed.

Lemma slugify_spec_witness :
  has_alnum "Fix the  Login--bug!" = true ∧
  slugify "Fix the  Login--bug!" = "fix-the-login-bug" ∧
  slug_shape (chars (slugify "Fix the  Login--bug!")) ∧
  has_alnum "?!" = false ∧
  Cli.add "?!" None None None w_demo
  = (Raise (ClickException "Title must produce a valid slug."), w_demo).
Proof.
  split; [reflexivity|]. split; [by vm_compute|]. split.
  - exact (proj2 (proj1 (slugify_spec "Fix the  Login--bug!") eq_refl)).
  - split; [reflexivity|].
    exact (proj2 (proj1 (proj2 (slugify_spec "?!")) eq_refl)
             w_demo "/home/u/proj" None None None eq_refl eq_refl).
Defined.

(** C8, as the spec has it, fails: the title ["?!"] has no letter and no
    digit and its slug is [""], yet [td add "?!" --id todo-1] in an empty
    project returns and creates the task; with a custom id the title is
    not slugified. *)
Lemma empty_slug_title_added_with_custom_id :
  has_alnum "?!" = false ∧
  slugify "?!" = "" ∧
  Cli.add "?!" None None (Some "todo-1") w_empty
  = (Ok (), prints [Line "todo-1"]
              (with_tasks {[ "todo-1" := todo_1 ]} w_empty)) ∧
  ¬ (∃ e w', Cli.add "?!" None None (Some "todo-1") w_empty = (Raise e, w')).
Proof.
  assert (Cli.add "?!" None None (Some "todo-1") w_empty
          = (Ok (), prints [Line "todo-1"]
                      (with_tasks {[ "todo-1" := todo_1 ]} w_empty))) as E
    by (vm_compute; reflexivity).
  split; [reflexivity|]. split; [vm_compute; reflexivity|]. split; [exact E|].
  intros (e & w' & E'). rewrite E in E'. discriminate E'.
Qed.

(** ** Unique ids *)

Lemma resolve_then_save root base t w :
  (Store.save_task root t;; Store.resolve_unique_id root base) w
  = (Ok (Store.unique_id (<[Task.id t := t]> (tasks w)) base),
     with_tasks (<[Task.id t := t]> (tasks w)) w).
Proof. reflexivity. Qed.

(** C9. [resolve_unique_id] returns, changes nothing, and its result names
    no record. It is [base] when no record is named [base]; otherwise it is
    [base-n] for the least [n] from 2 on such that no record is named
    [base-n]. Called again after a task with the first result as id has
    been saved, it returns another id; where neither [base] nor [base-2]
    was taken, the two results are [base] and [base-2], so ["foo"] and
    ["foo-2"]. *)
Theorem resolve_unique_id_spec root base w :
  ∃ r,
    Store.resolve_unique_id root base w = (Ok r, w) ∧
    tasks w !! r = None ∧
    (tasks w !! base = None → r = base) ∧
    (is_Some (tasks w !! base) →
       ∃ n, (2 ≤ n) ∧ r = Store.suffixed base n ∧
            ∀ j, (2 ≤ j < n) → is_Some (tasks w !! Store.suffixed base j)) ∧
    (∀ t, Task.id t = r →
       ∃ r' w',
         (Store.save_task root t;; Store.resolve_unique_id root base) w
         = (Ok r', w') ∧
         r' ≠ r ∧
         (tasks w !! base = None → tasks w !! Store.suffixed base 2 = None →
            r' = Store.suffixed base 2)) ∧
    Store.suffixed "foo" 2 = "foo-2".
Proof.
  exists (Store.unique_id (tasks w) base).
  split; [done|]. split; [apply unique_id_free|].
  split; [apply unique_id_fresh_base|].
  split.
  { intros H. destruct (unique_id_taken_base _ _ H) as (n & ? & ? & ? & ?). eauto. }
  split; [|by vm_compute].
  intros t Ht. rewrite resolve_then_save. eexists _, _. split; [done|].
  set (m' := <[Task.id t := t]> (tasks w)). split.
  - intros E. pose proof (unique_id_free m' base) as Hfree.
    rewrite E, <-Ht in Hfree. unfold m' in Hfree.
    by rewrite lookup_insert_eq in Hfree.
  - intros Hbase H2. rewrite (unique_id_fresh_base _ _ Hbase) in Ht.
    assert (is_Some (m' !! base)) as Htaken.
    { unfold m'. rewrite Ht, lookup_insert_eq. by eexists. }
    destruct (unique_id_taken_base _ _ Htaken) as (n & Hn & -> & _ & Hrun).
    destruct (decide (n = 2)) as [->|Hne]; [done|].
    destruct (Hrun 2 ltac:(lia)) as [x Hx]. unfold m' in Hx.
    rewrite lookup_insert_ne in Hx by (rewrite Ht; by apply not_eq_sym, suffixed_ne_base).
    by rewrite H2 in Hx.
Qed.

Example add_foo_twice :
  stdout ((Cli.add "Foo" None None None;; Cli.add "foo" None None None) w_empty).2
  = [Line "foo"; Line "foo-2"].
Proof. vm_compute. reflexivity. Qed.

Example resolve_foo_twice :
  Store.resolve_unique_id "/home/u/proj" "foo" w_empty = (Ok "foo", w_empty) ∧
  (Store.save_task "/home/u/proj" (Task.mk "foo" "Foo" "active" None None 1 1);;
   Store.resolve_unique_id "/home/u/proj" "foo") w_empty
  = (Ok "foo-2",
     with_tasks {[ "foo" := Task.mk "foo" "Foo" "active" None None 1 1 ]} w_empty).
Proof. split; vm_compute; reflexivity. Qed.

(** ** The ids of the stored tasks *)

Lemma chars_app (s1 s2 : string) : chars (s1 +:+ s2) = chars s1 ++ chars s2.
Proof. induction s1 as [|c s1 IH]; simpl; [done | by rewrite <-IH]. Qed.

Lemma pretty_N_char_digit x : Char.is_digit (pretty_N_char x) = true.
Proof. unfold pretty_N_char. by repeat case_match. Qed.

Lemma pretty_N_go_digits x s :
  Forall (λ c, Char.is_digit c = true) (chars s) →
  Forall (λ c, Char.is_digit c = true) (chars (pretty_N_go x s)).
Proof.
  revert s. induction (N.lt_wf_0 x) as [x _ IH]; intros s Hs.
  destruct (decide (x = 0%N)) as [->|Hx]; [by rewrite pretty_N_go_0|].
  rewrite pretty_N_go_step by lia. apply IH.
  - apply N.div_lt; lia.
  - simpl. constructor; [apply pretty_N_char_digit | done].
Qed.

Lemma pretty_nat_digits (n : nat) :
  Forall (λ c, Char.is_digit c = true) (chars (pretty n)).
Proof.
  unfold pretty, pretty_nat, pretty, pretty_N. case_decide.
  - by repeat constructor.
  - apply pretty_N_go_digits. constructor.
Qed.

Lemma digit_id_char c : Char.is_digit c = true → Char.is_id_char c = true.
Proof. unfold Char.is_id_char, Char.is_slug_alnum. by intros ->. Qed.

Lemma id_shape_slugify title : id_shape (slugify title).
Proof.
  unfold id_shape. rewrite chars_slugify. unfold slugify_chars.
  apply strip_Forall, squeeze_id_chars.
Qed.

Lemma id_shape_suffixed base n : id_shape base → id_shape (Store.suffixed base n).
Proof.
  unfold id_shape, Store.suffixed. intros H. rewrite !chars_app.
  apply Forall_app. split; [done|]. apply Forall_app. split; [by repeat constructor|].
  eapply Forall_impl; [apply pretty_nat_digits|]. apply digit_id_char.
Qed.

Lemma id_shape_unique_id m base : id_shape base → id_shape (Store.unique_id m base).
Proof.
  intros H. unfold Store.unique_id. case_bool_decide; [|done].
  destruct (next_free_spec m base) as (n & _ & -> & _). by apply id_shape_suffixed.
Qed.

Lemma unique_id_nonempty m base : base ≠ "" → Store.unique_id m base ≠ "".
Proof.
  intros H. unfold Store.unique_id. case_bool_decide; [|done].
  destruct (next_free_spec m base) as (n & _ & -> & _).
  unfold Store.suffixed. by destruct base.
Qed.

(** What a successful [add] has done. *)
Lemma add_run w root title parent state custom_id :
  td_root w = Some root →
  ∀ w', Cli.add title parent state custom_id w = (Ok (), w') →
  ∃ task_id,
    w' = prints [Line task_id]
           (with_tasks (<[task_id := Task.mk task_id title (default "active" state)
                                      parent None (clock w) (clock w)]> (tasks w)) w) ∧
    tasks w !! task_id = None ∧
    task_id ≠ "" ∧
    (nonempty custom_id = Some task_id ∨
     nonempty custom_id = None ∧ task_id = Store.unique_id (tasks w) (slugify title)).
Proof.
  intros Hroot w'. unfold Cli.add. unfold_cmd. rewrite Hroot.
  destruct (nonempty custom_id) as [cid|] eqn:Hcid.
  - case_bool_decide as Htaken; [done|]. intros [= <-]. exists cid.
    split; [done|]. split; [by apply eq_None_not_Some|].
    split; [by apply nonempty_Some_inv in Hcid as [_ ?] | by left].
  - case_bool_decide as Hbase; [done|]. intros [= <-].
    exists (Store.unique_id (tasks w) (slugify title)).
    split; [done|]. split; [apply unique_id_free|].
    split; [by apply unique_id_nonempty | by right].
Qed.

Lemma store_wf_insert m t :
  store_wf m → Task.id t ≠ "" → store_wf (<[Task.id t := t]> m).
Proof.
  intros Hwf Hne k x Hk.
  apply lookup_insert_Some in Hk as [[<- <-]|[_ Hk]]; [done | by apply Hwf].
Qed.

Lemma store_wf_delete m k : store_wf m → store_wf (delete k m).
Proof.
  intros Hwf k' x Hk'. apply lookup_delete_Some in Hk' as [_ Hk']. by apply Hwf.
Qed.

(** [add] keeps the records named by their ids. *)
Lemma add_preserves_wf w title parent state custom_id :
  store_wf (tasks w) →
  store_wf (tasks (Cli.add title parent state custom_id w).2).
Proof.
  intros Hwf.
  destruct (Cli.add title parent state custom_id w) as [[[]|e] w'] eqn:E.
  - destruct (td_root w) as [root|] eqn:Hroot.
    + destruct (add_run w root _ _ _ _ Hroot w' E) as (i & -> & _ & Hne & _).
      simpl. by apply (store_wf_insert _ (Task.mk i _ _ _ _ _ _)).
    + unfold Cli.add in E. unfold_cmd. by rewrite Hroot in E.
  - unfold Cli.add in E. unfold_cmd.
    repeat (case_match; simplify_eq); done.
Qed.

(** Under that naming, no two stored tasks have the same id. *)
Lemma stored_ids_unique w :
  store_wf (tasks w) → NoDup (Task.id <$> stored_tasks w).
Proof.
  intros Hwf. unfold stored_tasks. rewrite <-list_fmap_compose.
  rewrite (list_fmap_ext _ fst).
  - apply NoDup_fst_map_to_list.
  - intros i [k t] Hi. simpl.
    apply list_elem_of_lookup_2, elem_of_map_to_list in Hi. by apply Hwf.
Qed.

(** An id that [add] derives from the title has the shape of an id. *)
Lemma add_derived_id_shape w root title parent state custom_id w' :
  td_root w = Some root →
  nonempty custom_id = None →
  store_ok (tasks w) →
  Cli.add title parent state custom_id w = (Ok (), w') →
  store_ok (tasks w').
Proof.
  intros Hroot Hcid Hok E.
  destruct (add_run w root _ _ _ _ Hroot w' E) as (i & -> & _ & _ & [H|[_ ->]]);
    [congruence|].
  simpl. intros k x Hk.
  apply lookup_insert_Some in Hk as [[<- <-]|[_ Hk]]; [|by apply Hok].
  split; [done|]. apply id_shape_unique_id, id_shape_slugify.
Qed.

(** C1, where the code departs from it. In an empty project,
    [td add "Write report" --id "My Report"] returns and stores a task under
    the id ["My Report"], which has an uppercase letter and a space: the
    custom id is checked for being taken and for nothing else. *)
Theorem add_custom_id_unchecked :
  store_ok (tasks w_empty) ∧
  Cli.add "Write report" None None (Some "My Report") w_empty
  = (Ok (), prints [Line "My Report"]
              (with_tasks {[ "My Report" := my_report ]} w_empty)) ∧
  ¬ id_shape (Task.id my_report) ∧
  ¬ store_ok {[ "My Report" := my_report ]}.
Proof.
  assert (¬ id_shape "My Report") as Hshape.
  { unfold id_shape. simpl. intros H. apply Forall_cons in H as [HM _].
    by vm_compute in HM. }
  split; [|split; [|split]].
  - intros k t H. simpl in H. by rewrite lookup_empty in H.
  - vm_compute. reflexivity.
  - exact Hshape.
  - intros Hok. destruct (Hok "My Report" my_report) as [_ H]; [|done].
    apply lookup_singleton_eq.
Qed.

(** ** The naming of the records is kept by every command *)

Lemma store_wf_update m k t t' :
  store_wf m → m !! k = Some t → Task.id t' = Task.id t →
  store_wf (<[Task.id t := t']> m).
Proof.
  intros Hwf Hk Hid. rewrite <-Hid. apply store_wf_insert; [done|].
  rewrite Hid. destruct (Hwf _ _ Hk) as [-> ?]. done.
Qed.

Lemma command_preserves_wf c w :
  command c → store_wf (tasks w) → store_wf (tasks (c w).2).
Proof.
  intros Hc Hwf. destruct Hc.
  - by apply add_preserves_wf.
  - unfold Cli._set_state. unfold_cmd.
    destruct (td_root w); [|done].
    destruct (tasks w !! id) as [t|] eqn:Ht; [|done]. simpl.
    by apply (store_wf_update _ id t).
  - destruct (td_root w) as [root|] eqn:Hroot.
    + by rewrite (ls_cmd_run w root _ _ _ Hroot).
    + unfold Cli.ls_cmd. unfold_cmd. by rewrite Hroot.
  - destruct (td_root w) as [root|] eqn:Hroot.
    + rewrite (tree_run w root _ Hroot).
      set (shown := filter _ _).
      assert (∀ q ds, Cli.children_of shown !! q = Some ds → Forall (λ _, True) ds)
        as Hch by (intros; by apply Forall_true).
      destruct (nonempty id) as [i|].
      * destruct (Cli.task_map_of shown !! i) as [t|]; [|done].
        by destruct (print_tree_rows _ (stack_limit w) _ (Some i) 1
                       (prints [Line (Cli.tree_line 0 t)] w) Hch)
          as (res & rows & -> & _).
      * by destruct (print_tree_rows _ (stack_limit w) _ None 0 w Hch)
          as (res & rows & -> & _).
    + unfold Cli.tree. unfold_cmd. by rewrite Hroot.
  - unfold Cli.show. unfold_cmd.
    destruct (td_root w); [|done].
    destruct (tasks w !! id) as [t|]; [|done].
    by destruct (nonempty (Task.parent t)), (nonempty (Task.notes t)).
  - unfold Cli.edit. unfold_cmd.
    destruct (td_root w); [|done].
    destruct (tasks w !! id) as [t|] eqn:Ht; [|done].
    destruct title, notes, parent; simpl; try done;
      by apply (store_wf_update _ id t).
  - unfold Cli.mv. unfold_cmd.
    destruct (td_root w); [|done].
    destruct (tasks w !! id) as [t|] eqn:Ht; [|done]. simpl.
    by apply (store_wf_update _ id t).
  - unfold Cli.rm, confirm. unfold_cmd.
    destruct (td_root w); [|done].
    destruct (tasks w !! id) as [t|] eqn:Ht; [|done].
    destruct force; simpl.
    + rewrite Ht. simpl. by apply store_wf_delete.
    + destruct (stdin w) as [|[] rest]; simpl; [done | | done].
      rewrite Ht. simpl. by apply store_wf_delete.
Qed.

(** * Further properties of the commands *)

(** ** Outside a project, and when a command fails *)

(** X1. Outside a project every command raises [NotInitialized] before it
    does anything: the world is as it was. *)
Theorem command_needs_project (c : cmd ()) w :
  project_command c →
  td_root w = None →
  c w = (Raise NotInitialized, w).
Proof.
  intros [Hc| ->] Hroot.
  - destruct Hc;
      unfold Cli.add, Cli._set_state, Cli.ls_cmd, Cli.tree, Cli.show, Cli.edit,
        Cli.mv, Cli.rm;
      unfold_cmd; by rewrite Hroot.
  - unfold Cli.status. unfold_cmd. by rewrite Hroot.
Qed.

Lemma command_needs_project_witness :
  project_command (Cli.rm "fix-login" true) ∧
  td_root w_nowhere = None ∧
  Cli.rm "fix-login" true w_nowhere = (Raise NotInitialized, w_nowhere).
Proof.
  assert (project_command (Cli.rm "fix-login" true)) as Hc by (left; constructor).
  split; [exact Hc|]. split; [reflexivity|].
  exact (command_needs_project _ w_nowhere Hc eq_refl).
Defined.

(** X2. A command that raises has not changed a record: whatever the
    exception, a missing project, an unknown id, a taken id, a refused
    question or the end of the stack, the task directory is as it was. *)
Theorem failed_command_keeps_tasks (c : cmd ()) w e w' :
  project_command c →
  c w = (Raise e, w') →
  tasks w' = tasks w.
Proof.
  intros Hc E. destruct (td_root w) as [root|] eqn:Hroot.
  2: { destruct Hc as [Hc| ->]; [destruct Hc|];
         unfold Cli.add, Cli._set_state, Cli.ls_cmd, Cli.tree, Cli.show,
           Cli.edit, Cli.mv, Cli.rm, Cli.status in E;
         unfold_cmd; rewrite Hroot in E; by injection E as _ <-. }
  destruct Hc as [Hc| ->].
  - destruct Hc.
    + unfold Cli.add in E. unfold_cmd. rewrite Hroot in E.
      repeat (case_match; simplify_eq); done.
    + unfold Cli._set_state in E. unfold_cmd. rewrite Hroot in E.
      repeat (case_match; simplify_eq); done.
    + by rewrite (ls_cmd_run w root _ _ _ Hroot) in E.
    + rewrite (tree_run w root _ Hroot) in E.
      set (shown := filter _ _) in E.
      assert (∀ q ds, Cli.children_of shown !! q = Some ds → Forall (λ _, True) ds)
        as Hch by (intros; by apply Forall_true).
      destruct (nonempty id) as [i|].
      * destruct (Cli.task_map_of shown !! i) as [t|]; [|by injection E as _ <-].
        destruct (print_tree_rows _ (stack_limit w) _ (Some i) 1
                    (prints [Line (Cli.tree_line 0 t)] w) Hch)
          as (res & rows & E' & _).
        rewrite E' in E. by injection E as _ <-.
      * destruct (print_tree_rows _ (stack_limit w) _ None 0 w Hch)
          as (res & rows & E' & _).
        rewrite E' in E. by injection E as _ <-.
    + unfold Cli.show in E. unfold_cmd. rewrite Hroot in E.
      repeat (case_match; simplify_eq); done.
    + unfold Cli.edit in E. unfold_cmd. rewrite Hroot in E.
      repeat (case_match; simplify_eq); done.
    + unfold Cli.mv in E. unfold_cmd. rewrite Hroot in E.
      repeat (case_match; simplify_eq); done.
    + unfold Cli.rm, confirm in E. unfold_cmd. rewrite Hroot in E.
      repeat (case_match; simplify_eq); done.
  - unfold Cli.status in E. unfold_cmd. by rewrite Hroot in E.
Qed.

Lemma failed_command_keeps_tasks_witness :
  project_command (Cli.rm "fix-login" false) ∧
  Cli.rm "fix-login" false w_asked_no
  = (Raise Abort,
     with_stdin [] (prints [Prompt "Delete task 'fix-login'?"] w_asked_no)) ∧
  tasks (with_stdin [] (prints [Prompt "Delete task 'fix-login'?"] w_asked_no))
  = tasks w_asked_no.
Proof.
  assert (project_command (Cli.rm "fix-login" false)) as Hc by (left; constructor).
  assert (Cli.rm "fix-login" false w_asked_no
          = (Raise Abort,
             with_stdin [] (prints [Prompt "Delete task 'fix-login'?"] w_asked_no)))
    as E by (vm_compute; reflexivity).
  split; [exact Hc|]. split; [exact E|].
  exact (failed_command_keeps_tasks _ w_asked_no Abort _ Hc E).
Defined.

(** ** Creating a task *)

(** X3. With a custom id that is one path component, in a directory of
    such names, and that names no record, [add] takes any title, also one
    without a letter or digit: the title is not slugified. The task is saved
    under the custom id as given, with the state [active] unless one was
    given, no notes, and [created] and [updated] both at the clock's
    reading; the id is the one line printed. *)
Theorem add_custom_id_stored w root title parent state custom_id :
  td_root w = Some root →
  map_Forall (λ name _, plain_name name) (tasks w) →
  plain_name custom_id →
  custom_id ≠ "" →
  tasks w !! custom_id = None →
  Cli.add title parent state (Some custom_id) w
  = (Ok (), prints [Line custom_id]
              (with_tasks (<[custom_id := new_task custom_id title parent state
                                            (clock w)]> (tasks w)) w)).
Proof.
  intros Hroot _ _ Hne Hfree. unfold Cli.add. unfold_cmd.
  rewrite Hroot, (nonempty_Some _ Hne).
  rewrite bool_decide_eq_false_2; [done|].
  rewrite Hfree. by intros [? ?].
Qed.

Lemma add_custom_id_stored_witness :
  td_root w_demo = Some "/home/u/proj" ∧
  map_Forall (λ name _, plain_name name) (tasks w_demo) ∧
  plain_name "todo-1" ∧
  "todo-1" ≠ "" ∧
  tasks w_demo !! "todo-1" = None ∧
  slugify "?!" = "" ∧
  Cli.add "?!" (Some "fix-login") None (Some "todo-1") w_demo
  = (Ok (), prints [Line "todo-1"]
              (with_tasks (<["todo-1" := new_task "todo-1" "?!" (Some "fix-login")
                                          None (clock w_demo)]> (tasks w_demo))
                          w_demo)).
Proof.
  assert (map_Forall (λ name _, plain_name name) (tasks w_demo)) as Hdir.
  { intros k t H. simpl in H. apply lookup_singleton_Some in H as [<- _].
    apply (bool_decide_unpack _). vm_compute. reflexivity. }
  assert (plain_name "todo-1") as Hplain
    by (apply (bool_decide_unpack _); vm_compute; reflexivity).
  assert ("todo-1" ≠ "") as Hne by discriminate.
  assert (tasks w_demo !! "todo-1" = None) as Hfree by (vm_compute; reflexivity).
  split; [reflexivity|]. split; [exact Hdir|]. split; [exact Hplain|].
  split; [exact Hne|]. split; [exact Hfree|].
  split; [vm_compute; reflexivity|].
  exact (add_custom_id_stored w_demo "/home/u/proj" "?!" (Some "fix-login") None
           "todo-1" eq_refl Hdir Hplain Hne Hfree).
Defined.

(** X4. [add] never writes over a record. When it returns, the id it
    printed named no record before and names the new task now, every other
    record is as it was, and there is one record more. *)
Theorem add_never_overwrites w root title parent state custom_id w' :
  td_root w = Some root →
  Cli.add title parent state custom_id w = (Ok (), w') →
  ∃ task_id,
    stdout w' = stdout w ++ [Line task_id] ∧
    tasks w !! task_id = None ∧
    tasks w' !! task_id
    = Some (new_task task_id title parent state (clock w)) ∧
    (∀ k, k ≠ task_id → tasks w' !! k = tasks w !! k) ∧
    size (tasks w') = S (size (tasks w)).
Proof.
  intros Hroot E.
  destruct (add_run w root _ _ _ _ Hroot w' E) as (i & -> & Hfree & _ & _).
  exists i. simpl. split; [done|]. split; [done|].
  split; [by rewrite lookup_insert_eq|]. split.
  - intros k Hk. by rewrite lookup_insert_ne.
  - by apply map_size_insert_None.
Qed.

Lemma add_never_overwrites_witness :
  td_root w_demo = Some "/home/u/proj" ∧
  ∃ w', Cli.add "Fix login" None None None w_demo = (Ok (), w') ∧
  ∃ task_id,
    stdout w' = stdout w_demo ++ [Line task_id] ∧
    tasks w_demo !! task_id = None ∧
    tasks w' !! task_id
    = Some (new_task task_id "Fix login" None None (clock w_demo)) ∧
    (∀ k, k ≠ task_id → tasks w' !! k = tasks w_demo !! k) ∧
    size (tasks w') = S (size (tasks w_demo)).
Proof.
  split; [reflexivity|].
  exists (Cli.add "Fix login" None None None w_demo).2.
  assert (Cli.add "Fix login" None None None w_demo
          = (Ok (), (Cli.add "Fix login" None None None w_demo).2)) as E
    by (vm_compute; reflexivity).
  split; [exact E|].
  exact (add_never_overwrites w_demo "/home/u/proj" "Fix login" None None None _
           eq_refl E).
Defined.

(** ** More on sorting and listing *)

Section SortByMore.
Context {A : Type} (key : A → nat).

Lemma sorted_sort_by_id l :
  StronglySorted (key_le key) l → Cli.sort_by key l = l.
Proof. intros Hs. symmetry. by apply sort_by_unique. Qed.

Lemma const_key_sorted l k :
  Forall (λ a, key a = k) l → StronglySorted (key_le key) l.
Proof.
  induction 1 as [|x r Hx Hr IH]; constructor; [done|].
  eapply Forall_impl; [exact Hr|]. unfold key_le. intros; simpl in *; lia.
Qed.

Lemma filter_sorted (P : A → Prop) `{!∀ a, Decision (P a)} l :
  StronglySorted (key_le key) l → StronglySorted (key_le key) (filter P l).
Proof.
  induction 1 as [|x r Hr IH Hx]; [constructor|].
  rewrite filter_cons. case_decide; [|done].
  constructor; [done|]. apply Forall_forall. intros y Hy.
  apply list_elem_of_filter in Hy as [_ Hy]. by eapply Forall_forall in Hx.
Qed.

Lemma filter_swap (P Q : A → Prop)
    `{!∀ a, Decision (P a), !∀ a, Decision (Q a)} (l : list A) :
  filter P (filter Q l) = filter Q (filter P l).
Proof. rewrite !list_filter_filter. apply list_filter_iff. intros a. tauto. Qed.

(** Filtering before or after the sort gives the same list. *)
Lemma sort_by_filter (P : A → Prop) `{!∀ a, Decision (P a)} l :
  Cli.sort_by key (filter P l) = filter P (Cli.sort_by key l).
Proof.
  symmetry. apply sort_by_unique.
  - apply filter_sorted, sort_by_sorted.
  - intros k.
    rewrite (filter_swap (λ a, key a = k) P), sort_by_stable.
    apply filter_swap.
Qed.

End SortByMore.

Lemma state_key_invalid s : s ∉ VALID_STATES → state_key s = 99.
Proof.
  intros H. unfold state_key, Cli.state_order. simpl.
  rewrite !lookup_insert_ne, lookup_empty; [done|..];
    intros <-; apply H; apply (bool_decide_unpack _); vm_compute; reflexivity.
Qed.

Lemma state_key_valid_lt s : s ∈ VALID_STATES → state_key s < 4.
Proof.
  intros H. apply list_elem_of_lookup in H as [i Hi].
  rewrite (state_key_valid _ _ Hi). apply lookup_lt_Some in Hi. simpl in Hi. lia.
Qed.

Lemma filter_state_by_key s (l : list Task.t) :
  filter (λ t, Task.state t = s) l
  = filter (λ t, Task.state t = s)
           (filter (λ t, Cli.sort_key t = state_key s) l).
Proof.
  rewrite list_filter_filter. apply list_filter_iff.
  intros t. rewrite sort_key_state. split; [by intros ->|tauto].
Qed.

Lemma sort_key_stable_state s (l : list Task.t) :
  filter (λ t, Task.state t = s) (Cli.sort_by Cli.sort_key l)
  = filter (λ t, Task.state t = s) l.
Proof.
  rewrite filter_state_by_key, sort_by_stable. symmetry. apply filter_state_by_key.
Qed.

(** X5. With a state filter [ls] selects exactly the stored tasks in that
    state, in the order the directory gives them, and [--all] makes no
    difference: [--state done] lists the done tasks without [--all]. *)
Theorem ls_state_filter wanted show_all ts :
  wanted ≠ "" →
  Cli.ls_select (Some wanted) show_all ts
  = filter (λ t, Task.state t = wanted) ts.
Proof.
  intros Hne. unfold Cli.ls_select. rewrite (nonempty_Some _ Hne).
  apply sorted_sort_by_id, (const_key_sorted _ _ (state_key wanted)).
  apply Forall_forall. intros t Ht.
  apply list_elem_of_filter in Ht as [<- _]. apply sort_key_state.
Qed.

Lemma ls_state_filter_witness :
  "done" ≠ "" ∧
  Cli.ls_select (Some "done") false (stored_tasks w_abc) = [task_B] ∧
  filter (λ t, Task.state t = "done") (stored_tasks w_abc) = [task_B].
Proof.
  assert ("done" ≠ "") as Hne by discriminate.
  assert (filter (λ t, Task.state t = "done") (stored_tasks w_abc) = [task_B])
    as E by (vm_compute; reflexivity).
  split; [exact Hne|]. split; [|exact E].
  rewrite <-E. exact (ls_state_filter "done" false (stored_tasks w_abc) Hne).
Defined.

(** X6. With [--all] and no filter [ls] drops nothing, and a task whose
    state is none of [focus, active, later, done] is listed after every
    task whose state is one of them. *)
Theorem ls_all_unknown_states_last ts :
  Cli.ls_select None true ts ≡ₚ ts ∧
  ∀ i j a b,
    Cli.ls_select None true ts !! i = Some a →
    Cli.ls_select None true ts !! j = Some b →
    Task.state a ∈ VALID_STATES → Task.state b ∉ VALID_STATES →
    i < j.
Proof.
  unfold Cli.ls_select. simpl. split; [apply sort_by_perm|].
  intros i j a b Hi Hj Ha Hb.
  apply (sort_by_before Cli.sort_key ts i j a b Hi Hj).
  rewrite !sort_key_state, (state_key_invalid _ Hb).
  pose proof (state_key_valid_lt _ Ha). lia.
Qed.

Lemma ls_all_unknown_states_last_witness :
  Cli.ls_select None true [odd_task; task_B] !! 0 = Some task_B ∧
  Cli.ls_select None true [odd_task; task_B] !! 1 = Some odd_task ∧
  Task.state task_B ∈ VALID_STATES ∧
  (Task.state odd_task ∉ VALID_STATES) ∧
  0 < 1.
Proof.
  assert (Cli.ls_select None true [odd_task; task_B] !! 0 = Some task_B) as H0
    by (vm_compute; reflexivity).
  assert (Cli.ls_select None true [odd_task; task_B] !! 1 = Some odd_task) as H1
    by (vm_compute; reflexivity).
  assert (Task.state task_B ∈ VALID_STATES) as Ha
    by (apply (bool_decide_unpack _); vm_compute; reflexivity).
  assert (Task.state odd_task ∉ VALID_STATES) as Hb
    by (apply (bool_decide_unpack _); vm_compute; reflexivity).
  split; [exact H0|]. split; [exact H1|]. split; [exact Ha|]. split; [exact Hb|].
  exact (proj2 (ls_all_unknown_states_last [odd_task; task_B])
           0 1 task_B odd_task H0 H1 Ha Hb).
Defined.

(** X7. The default listing is the [--all] listing with the done tasks
    taken out: the tasks that stay keep the places they have relative to
    each other. *)
Theorem ls_default_is_all_without_done ts :
  Cli.ls_select None false ts
  = filter (λ t, Task.state t ≠ "done") (Cli.ls_select None true ts).
Proof. unfold Cli.ls_select. simpl. apply sort_by_filter. Qed.

(** X8. Among the tasks of one state [ls] keeps the order in which the
    directory gave them, with [--all] for every state and without it for
    every state but [done]. *)
Theorem ls_keeps_order_within_state s show_all ts :
  show_all = true ∨ s ≠ "done" →
  filter (λ t, Task.state t = s) (Cli.ls_select None show_all ts)
  = filter (λ t, Task.state t = s) ts.
Proof.
  intros H. unfold Cli.ls_select. simpl. rewrite sort_key_stable_state.
  destruct show_all; simpl; [done|].
  destruct H as [?|Hs]; [done|].
  apply list_filter_filter_l. by intros t ->.
Qed.

Lemma ls_keeps_order_within_state_witness :
  (false = true ∨ "active" ≠ "done") ∧
  filter (λ t, Task.state t = "active")
         (Cli.ls_select None false [task_A; task_B; fix_login])
  = filter (λ t, Task.state t = "active") [task_A; task_B; fix_login].
Proof.
  assert (false = true ∨ "active" ≠ "done") as H by (right; discriminate).
  split; [exact H|].
  exact (ls_keeps_order_within_state "active" false [task_A; task_B; fix_login] H).
Defined.

Lemma filter_none {A} (P : A → Prop) `{!∀ a, Decision (P a)} (l : list A) :
  (∀ a, a ∈ l → ¬ P a) → filter P l = [].
Proof.
  induction l as [|x r IH]; intros Hno; [done|].
  rewrite filter_cons_False by (apply Hno; left). apply IH.
  intros a Ha. apply Hno. by right.
Qed.

(** X9. When every stored task is done, and so in an empty project, the
    default [ls] has nothing to list: as a table it prints the one line
    "No tasks.", as JSON the empty array. *)
Theorem ls_nothing_to_list w root :
  td_root w = Some root →
  (∀ t, t ∈ stored_tasks w → Task.state t = "done") →
  Cli.ls_cmd None false false w = (Ok (), prints [Line "No tasks."] w) ∧
  Cli.ls_cmd None false true w = (Ok (), prints [Json []] w).
Proof.
  intros Hroot Hdone.
  assert (Cli.ls_select None false (stored_tasks w) = []) as E.
  { unfold Cli.ls_select. simpl.
    rewrite filter_none; [done|]. intros t Ht Hnot. by apply Hnot, Hdone. }
  rewrite !(ls_cmd_run w root _ _ _ Hroot), E. done.
Qed.

Lemma ls_nothing_to_list_witness :
  td_root w_empty = Some "/home/u/proj" ∧
  (∀ t, t ∈ stored_tasks w_empty → Task.state t = "done") ∧
  Cli.ls_cmd None false false w_empty = (Ok (), prints [Line "No tasks."] w_empty).
Proof.
  assert (∀ t, t ∈ stored_tasks w_empty → Task.state t = "done") as H.
  { intros t Ht. unfold stored_tasks in Ht. simpl in Ht.
    rewrite map_to_list_empty in Ht. by apply elem_of_nil in Ht. }
  split; [reflexivity|]. split; [exact H|].
  exact (proj1 (ls_nothing_to_list w_empty "/home/u/proj" eq_refl H)).
Defined.

(** ** The table of [ls] *)

Lemma string_of_chars_length (l : list ascii) :
  String.length (string_of_list_ascii l) = length l.
Proof. induction l as [|c r IH]; simpl; [done | by rewrite IH]. Qed.

Lemma ljust_length width s :
  String.length (Cli.ljust width s) = width `max` String.length s.
Proof.
  unfold Cli.ljust.
  rewrite string_length_app, string_of_chars_length, length_replicate. lia.
Qed.

(** X10. For tasks whose id, state and title are ASCII text, the columns
    of the rows in the table of [ls] line up: the state and the id of every
    row are padded to the widest state and the widest id, neither is ever
    cut, and the title starts at the same column in every row. The header
    is padded to the same widths but is not cut either, so it lines up with
    the rows when the widest state has at least the 5 characters of
    [STATE] and the widest id the 2 of [ID]. *)
Theorem ls_table_columns rows t :
  Forall (λ r, ascii_only (Task.id r) ∧ ascii_only (Task.state r) ∧
               ascii_only (Task.title r)) rows →
  t ∈ rows →
  String.length (Cli.ljust (state_width rows) (Task.state t)) = state_width rows ∧
  String.length (Cli.ljust (id_width rows) (Task.id t)) = id_width rows ∧
  String.length (Cli.table_row (state_width rows) (id_width rows) t)
  = state_width rows + 2 + id_width rows + 2 + String.length (Task.title t) ∧
  Line (Cli.table_row (state_width rows) (id_width rows) t) ∈ ls_table rows ∧
  String.length (Cli.ljust (state_width rows) "STATE") = state_width rows `max` 5 ∧
  String.length (Cli.ljust (id_width rows) "ID") = id_width rows `max` 2.
Proof.
  intros _ Ht.
  assert (String.length (Task.state t) ≤ state_width rows) as Hs.
  { apply max_list_elem_of_le, list_elem_of_fmap. by exists t. }
  assert (String.length (Task.id t) ≤ id_width rows) as Hi.
  { apply max_list_elem_of_le, list_elem_of_fmap. by exists t. }
  assert (String.length (Cli.ljust (state_width rows) (Task.state t))
          = state_width rows) as Es by (rewrite ljust_length; lia).
  assert (String.length (Cli.ljust (id_width rows) (Task.id t))
          = id_width rows) as Ei by (rewrite ljust_length; lia).
  split; [exact Es|]. split; [exact Ei|]. split; [|split; [|split]].
  - unfold Cli.table_row. rewrite !string_length_app, Es, Ei. simpl. lia.
  - unfold ls_table. destruct rows as [|r rows']; [by apply elem_of_nil in Ht|].
    right. apply list_elem_of_fmap. by exists t.
  - apply ljust_length.
  - apply ljust_length.
Qed.

Lemma ls_table_columns_witness :
  Forall (λ r, ascii_only (Task.id r) ∧ ascii_only (Task.state r) ∧
               ascii_only (Task.title r)) [task_B; task_A] ∧
  task_A ∈ [task_B; task_A] ∧
  Cli.table_row (state_width [task_B; task_A]) (id_width [task_B; task_A]) task_A
  = "active  a  A" ∧
  String.length (Cli.table_row (state_width [task_B; task_A])
                               (id_width [task_B; task_A]) task_A)
  = state_width [task_B; task_A] + 2 + id_width [task_B; task_A] + 2
    + String.length (Task.title task_A).
Proof.
  assert (Forall (λ r, ascii_only (Task.id r) ∧ ascii_only (Task.state r) ∧
                       ascii_only (Task.title r)) [task_B; task_A]) as Hascii
    by (apply (bool_decide_unpack _); vm_compute; reflexivity).
  assert (task_A ∈ [task_B; task_A]) as H by (right; left).
  split; [exact Hascii|]. split; [exact H|]. split; [vm_compute; reflexivity|].
  exact (proj1 (proj2 (proj2
           (ls_table_columns [task_B; task_A] task_A Hascii H)))).
Defined.

Lemma tree_hides_done_rows w root id :
  td_root w = Some root →
  ∃ res rows,
    Cli.tree id w = (res, prints (tree_lines rows) w) ∧
    Forall (λ r, r.2 ∈ stored_tasks w ∧ Task.state r.2 ≠ "done") rows.
Proof.
  intros Hroot. rewrite (tree_run w root _ Hroot).
  set (P := λ t, t ∈ stored_tasks w ∧ Task.state t ≠ "done").
  set (shown := filter (λ t, Task.state t ≠ "done") (stored_tasks w)).
  assert (∀ q ds, Cli.children_of shown !! q = Some ds → Forall P ds) as Hch.
  { intros q ds. apply children_of_Forall, not_done_Forall. }
  destruct (nonempty id) as [i|].
  - destruct (Cli.task_map_of shown !! i) as [t|] eqn:Ht.
    + apply task_map_of_lookup in Ht as [Ht _].
      destruct (print_tree_rows P (stack_limit w) _ (Some i) 1
                  (prints [Line (Cli.tree_line 0 t)] w) Hch)
        as (res & rows & -> & Hrows).
      exists res, ((0, t) :: rows). rewrite prints_prints. split; [done|].
      constructor; [|done]. simpl.
      by apply list_elem_of_filter in Ht as [? ?].
    + exists (Raise (ClickException ("Task '" +:+ i +:+ "' not found."))), [].
      split; [by rewrite prints_nil | constructor].
  - destruct (print_tree_rows P (stack_limit w) _ None 0 w Hch)
      as (res & rows & -> & Hrows). by exists res, rows.
Qed.

(** ** Commands that only read *)

Lemma nothing_printed {A} (res : result A) w : (res, w) = (res, prints [] w).
Proof. by rewrite prints_nil. Qed.

(** X11. [ls], [tree], [show] and [status] only print: whatever they
    return or raise, the world they leave is the one they found with some
    lines added to the output; no record, no pending answer, nothing else
    is changed. *)
Theorem read_only_commands_only_print c w :
  read_only c →
  ∃ res lines,
    c w = (res, prints lines w) ∧
    tasks (c w).2 = tasks w ∧ stdin (c w).2 = stdin w.
Proof.
  intros Hc.
  assert (∃ res lines, c w = (res, prints lines w)) as (res & lines & E);
    [|exists res, lines; by rewrite E].
  destruct (td_root w) as [root|] eqn:Hroot.
  2: { exists (Raise NotInitialized), [].
       destruct Hc; unfold Cli.ls_cmd, Cli.tree, Cli.show, Cli.status;
         unfold_cmd; rewrite Hroot; apply nothing_printed. }
  destruct Hc.
  - rewrite (ls_cmd_run w root _ _ _ Hroot). eauto.
  - destruct (tree_hides_done_rows w root id Hroot) as (res & rows & -> & _). eauto.
  - unfold Cli.show. unfold_cmd. rewrite Hroot.
    destruct (tasks w !! id) as [t|]; [|eexists _, []; apply nothing_printed].
    destruct (nonempty (Task.parent t)), (nonempty (Task.notes t));
      eexists _, _; unfold prints, with_stdout; simpl;
      rewrite <-!app_assoc; reflexivity.
  - unfold Cli.status. unfold_cmd. rewrite Hroot. eauto.
Qed.

Lemma read_only_commands_only_print_witness :
  read_only (Cli.tree (Some "b")) ∧
  ∃ res lines,
    Cli.tree (Some "b") w_abc = (res, prints lines w_abc) ∧
    tasks (Cli.tree (Some "b") w_abc).2 = tasks w_abc ∧
    stdin (Cli.tree (Some "b") w_abc).2 = stdin w_abc.
Proof.
  assert (read_only (Cli.tree (Some "b"))) as Hc by constructor.
  split; [exact Hc|].
  exact (read_only_commands_only_print _ w_abc Hc).
Defined.

(** ** Editing and moving *)

(** X12. [edit] on a stored task. Without any option it prints "Nothing
    to update." and writes nothing, so [updated] stays. With an option it
    writes the task back with [updated] at the clock's reading and the
    given fields changed, the others as loaded: the title becomes the one
    given, even the empty one; notes and parent become the ones given, and
    are removed when the empty string is given; [id], [state] and [created]
    are never changed. *)
Theorem edit_effect w root id title notes parent t :
  td_root w = Some root →
  tasks w !! id = Some t →
  Cli.edit id title notes parent w
  = match title, notes, parent with
    | None, None, None => (Ok (), prints [Line "Nothing to update."] w)
    | _, _, _ =>
        (Ok (), prints [Line ("Updated " +:+ id)]
                  (with_tasks (<[Task.id t := edited title notes parent (clock w) t]>
                                 (tasks w)) w))
    end.
Proof.
  intros Hroot Ht. unfold Cli.edit. unfold_cmd. rewrite Hroot, Ht.
  by destruct title, notes, parent.
Qed.

Lemma edit_effect_witness :
  td_root w_notes = Some "/home/u/proj" ∧
  tasks w_notes !! "fix-login" = Some with_notes ∧
  Cli.edit "fix-login" None (Some "") None w_notes
  = (Ok (), prints [Line "Updated fix-login"]
              (with_tasks {[ "fix-login" :=
                   Task.mk "fix-login" "Fix login" "active" (Some "epic") None
                           10 1000 ]} w_notes)) ∧
  Cli.edit "fix-login" None None None w_notes
  = (Ok (), prints [Line "Nothing to update."] w_notes).
Proof.
  assert (tasks w_notes !! "fix-login" = Some with_notes) as H
    by (vm_compute; reflexivity).
  split; [reflexivity|]. split; [exact H|]. split.
  - rewrite (edit_effect w_notes "/home/u/proj" "fix-login" None (Some "") None
               with_notes eq_refl H).
    vm_compute. reflexivity.
  - exact (edit_effect w_notes "/home/u/proj" "fix-login" None None None
             with_notes eq_refl H).
Defined.

(** X13. For a parent id that is not empty, [mv ID PARENT] does to the
    records what [edit ID --parent PARENT] does, with the same outcome; the
    parent id is not looked up by either, so it may name no task, or the
    task itself. *)
Theorem mv_is_edit_parent w id parent_id :
  parent_id ≠ "" →
  (Cli.mv id parent_id w).1 = (Cli.edit id None None (Some parent_id) w).1 ∧
  tasks (Cli.mv id parent_id w).2
  = tasks (Cli.edit id None None (Some parent_id) w).2.
Proof.
  intros Hne. unfold Cli.mv, Cli.edit. unfold_cmd.
  destruct (td_root w); [|done].
  destruct (tasks w !! id) as [t|]; [|done].
  destruct parent_id as [|c r]; [done|]. done.
Qed.

Lemma mv_is_edit_parent_witness :
  "ghost" ≠ "" ∧
  (Cli.mv "fix-login" "ghost" w_demo).1
  = (Cli.edit "fix-login" None None (Some "ghost") w_demo).1 ∧
  tasks (Cli.mv "fix-login" "ghost" w_demo).2
  = tasks (Cli.edit "fix-login" None None (Some "ghost") w_demo).2.
Proof.
  assert ("ghost" ≠ "") as Hne by discriminate.
  split; [exact Hne|].
  exact (mv_is_edit_parent w_demo "fix-login" "ghost" Hne).
Defined.

(** X14. [mv] with the empty string as parent does not remove the parent,
    as [edit --parent ""] does: it stores the empty string as the task's
    parent. *)
Theorem mv_empty_parent_is_kept w root id t :
  td_root w = Some root →
  tasks w !! id = Some t →
  tasks (Cli.mv id "" w).2 !! Task.id t
  = Some (Task.set_updated (clock w) (Task.set_parent (Some "") t)) ∧
  tasks (Cli.edit id None None (Some "") w).2 !! Task.id t
  = Some (Task.set_updated (clock w) (Task.set_parent None t)).
Proof.
  intros Hroot Ht. unfold Cli.mv, Cli.edit. unfold_cmd. rewrite Hroot, Ht. simpl.
  by rewrite !lookup_insert_eq.
Qed.

Lemma mv_empty_parent_is_kept_witness :
  td_root w_notes = Some "/home/u/proj" ∧
  tasks w_notes !! "fix-login" = Some with_notes ∧
  Task.parent <$> tasks (Cli.mv "fix-login" "" w_notes).2 !! "fix-login"
  = Some (Some "") ∧
  Task.parent <$> tasks (Cli.edit "fix-login" None None (Some "") w_notes).2
                    !! "fix-login"
  = Some None.
Proof.
  assert (tasks w_notes !! "fix-login" = Some with_notes) as H
    by (vm_compute; reflexivity).
  split; [reflexivity|]. split; [exact H|].
  destruct (mv_empty_parent_is_kept w_notes "/home/u/proj" "fix-login" with_notes
              eq_refl H) as [Hmv Hedit].
  simpl in Hmv, Hedit. by rewrite Hmv, Hedit.
Defined.

(** ** The tree: grouping, loops and orphans *)

(** [children] files every task under its parent, in the order of the
    list. *)
Lemma children_of_lookup l p :
  Cli.children_of l !! p
  = match filter (λ t, Task.parent t = p) l with
    | [] => None
    | cs => Some cs
    end.
Proof.
  unfold Cli.children_of.
  induction l as [|t l IH] using rev_ind; [simpl; by rewrite lookup_empty|].
  rewrite foldl_app, filter_app. simpl.
  destruct (decide (Task.parent t = p)) as [<-|Hne].
  - rewrite lookup_insert_eq, IH, filter_cons_True, filter_nil by done.
    by destruct (filter _ l).
  - rewrite lookup_insert_ne, IH, filter_cons_False, filter_nil, app_nil_r by done.
    done.
Qed.

Lemma children_of_filed l p cs :
  Cli.children_of l !! p = Some cs →
  cs = filter (λ t, Task.parent t = p) l.
Proof.
  rewrite children_of_lookup. destruct (filter _ l); [done|]. by intros [= <-].
Qed.

Lemma children_of_elem l t :
  t ∈ l → t ∈ default [] (Cli.children_of l !! Task.parent t).
Proof.
  intros Ht. rewrite children_of_lookup.
  assert (t ∈ filter (λ x, Task.parent x = Task.parent t) l) as Hin
    by by apply list_elem_of_filter.
  by destruct (filter _ l).
Qed.

Lemma task_map_of_is_Some l t :
  t ∈ l → is_Some (Cli.task_map_of l !! Task.id t).
Proof.
  unfold Cli.task_map_of. intros Ht.
  induction l as [|x l IH] using rev_ind; [by apply elem_of_nil in Ht|].
  rewrite foldl_app. simpl.
  destruct (decide (Task.id x = Task.id t)) as [->|Hne].
  - rewrite lookup_insert_eq. by eexists.
  - rewrite lookup_insert_ne by done. apply IH.
    apply elem_of_app in Ht as [?|Ht]; [done|].
    apply list_elem_of_singleton in Ht as ->. done.
Qed.

Lemma for_each_raises {A} (body : A → cmd ()) e l a :
  (∀ x w, (body x w).1 = Ok () ∨ (body x w).1 = Raise e) →
  (∀ w, (body a w).1 = Raise e) →
  a ∈ l →
  ∀ w, (for_each l body w).1 = Raise e.
Proof.
  intros Hall Ha Hin. induction l as [|x l IH]; intros w; [by apply elem_of_nil in Hin|].
  simpl. rewrite bind_run.
  apply elem_of_cons in Hin as [<-|Hin].
  - specialize (Ha w). by destruct (body a w) as [[[]|e'] w']; simplify_eq/=.
  - destruct (Hall x w) as [Hx|Hx]; destruct (body x w) as [[[]|e'] w'];
      simplify_eq/=; [by apply IH | done].
Qed.

Lemma for_each_ok_or {A} (body : A → cmd ()) e l :
  (∀ x w, (body x w).1 = Ok () ∨ (body x w).1 = Raise e) →
  ∀ w, (for_each l body w).1 = Ok () ∨ (for_each l body w).1 = Raise e.
Proof.
  intros Hall. induction l as [|x l IH]; intros w; [by left|].
  simpl. rewrite bind_run.
  destruct (Hall x w) as [Hx|Hx]; destruct (body x w) as [[[]|e'] w'];
    simplify_eq/=; [apply IH | by right].
Qed.

(** The one exception [print_tree] can end with is the end of the stack. *)
Lemma print_tree_ok_or_overflow depth children parent_id indent w :
  (Cli.print_tree depth children parent_id indent w).1 = Ok () ∨
  (Cli.print_tree depth children parent_id indent w).1 = Raise RecursionError.
Proof.
  revert parent_id indent w.
  induction depth as [|depth IH]; intros parent_id indent w; [by right|].
  simpl. apply for_each_ok_or. intros x w'. rewrite bind_run. apply IH.
Qed.

Lemma print_tree_loop depth children t indent w :
  t ∈ default [] (children !! Some (Task.id t)) →
  (Cli.print_tree depth children (Some (Task.id t)) indent w).1
  = Raise RecursionError.
Proof.
  intros Ht. revert indent w.
  induction depth as [|depth IH]; intros indent w; [done|].
  simpl. apply (for_each_raises _ _ _ t); [| |done].
  - intros x w'. rewrite bind_run. apply print_tree_ok_or_overflow.
  - intros w'. rewrite bind_run. apply IH.
Qed.

(** X15. A task that is its own parent ([mv ID ID] makes one) cannot be
    shown by [tree ID]: however deep the stack, the command prints until
    the stack is used up and ends with [RecursionError]. *)
Theorem tree_of_own_parent_overflows w root t :
  td_root w = Some root →
  t ∈ stored_tasks w →
  Task.state t ≠ "done" →
  Task.id t ≠ "" →
  Task.parent t = Some (Task.id t) →
  (Cli.tree (Some (Task.id t)) w).1 = Raise RecursionError.
Proof.
  intros Hroot Hin Hstate Hne Hparent.
  rewrite (tree_run w root _ Hroot), (nonempty_Some _ Hne).
  set (shown := filter (λ t, Task.state t ≠ "done") (stored_tasks w)).
  assert (t ∈ shown) as Hshown by by apply list_elem_of_filter.
  destruct (task_map_of_is_Some shown t Hshown) as [t' ->].
  apply print_tree_loop. rewrite <-Hparent. by apply children_of_elem.
Qed.

Lemma tree_of_own_parent_overflows_witness :
  td_root w_loop = Some "/home/u/proj" ∧
  loop_task ∈ stored_tasks w_loop ∧
  Task.state loop_task ≠ "done" ∧
  Task.id loop_task ≠ "" ∧
  Task.parent loop_task = Some (Task.id loop_task) ∧
  (Cli.tree (Some "loop") w_loop).1 = Raise RecursionError.
Proof.
  assert (loop_task ∈ stored_tasks w_loop) as Hin.
  { apply stored_tasks_elem. exists "loop". vm_compute. reflexivity. }
  assert (Task.state loop_task ≠ "done") as Hs by discriminate.
  assert (Task.id loop_task ≠ "") as Hne by discriminate.
  split; [reflexivity|]. split; [exact Hin|]. split; [exact Hs|].
  split; [exact Hne|]. split; [reflexivity|].
  exact (tree_of_own_parent_overflows w_loop "/home/u/proj" loop_task
           eq_refl Hin Hs Hne eq_refl).
Defined.

Lemma print_tree_rows_under shown depth parent_id indent w :
  ∃ res rows,
    Cli.print_tree depth (Cli.children_of shown) parent_id indent w
    = (res, prints (tree_lines rows) w) ∧
    Forall (row_under shown parent_id indent) rows.
Proof.
  revert parent_id indent w.
  induction depth as [|depth IH]; intros parent_id indent w; simpl.
  - exists (Raise RecursionError), []. split; [|constructor].
    unfold mthrow, cmd_throw. by rewrite prints_nil.
  - assert (Forall (λ t, t ∈ shown ∧ Task.parent t = parent_id)
                   (default [] (Cli.children_of shown !! parent_id))) as Hcs.
    { destruct (Cli.children_of shown !! parent_id) as [cs|] eqn:E; [|constructor].
      apply children_of_filed in E as ->. simpl. apply Forall_forall.
      intros t Ht. by apply list_elem_of_filter in Ht as [? ?]. }
    revert w. induction Hcs as [|t r [Hin Hp] _ IHr]; intros w; simpl.
    + exists (Ok ()), []. split; [|constructor]. unfold mret, cmd_ret.
      by rewrite prints_nil.
    + rewrite bind_run. cbv beta. rewrite bind_run. unfold echo at 1.
      fold (prints [Line (Cli.tree_line indent t)] w).
      destruct (IH (Some (Task.id t)) (S indent)
                  (prints [Line (Cli.tree_line indent t)] w))
        as (res1 & rows1 & -> & Hrows1).
      rewrite prints_prints.
      assert (Forall (row_under shown parent_id indent) ((indent, t) :: rows1))
        as Hhere.
      { constructor; [split; [done | by left]|].
        eapply Forall_impl; [exact Hrows1|].
        intros [n x] [Hx Hwhere]. split; [done|]. right. simpl in *.
        destruct Hwhere as [[-> Hpx]|[Hlt Hdeep]]; [|split; [lia | done]].
        split; [lia|]. by exists t. }
      destruct res1 as [[]|e].
      * destruct (IHr (prints ([Line (Cli.tree_line indent t)] ++ tree_lines rows1) w))
          as (res2 & rows2 & -> & Hrows2).
        rewrite prints_prints.
        exists res2, (((indent, t) :: rows1) ++ rows2). split.
        -- unfold tree_lines. by rewrite fmap_app, fmap_cons.
        -- by apply Forall_app.
      * by exists (Raise e), ((indent, t) :: rows1).
Qed.

(** X16. [tree] without an id prints, at the left margin, tasks without a
    parent and, indented, tasks whose parent is the id of a task that is
    not done; all of them are stored and not done. So a task whose parent
    is done, or names no task, is not shown, nor is anything under it. *)
Theorem tree_shows_roots_and_their_children w root :
  td_root w = Some root →
  ∃ res rows,
    Cli.tree None w = (res, prints (tree_lines rows) w) ∧
    Forall (λ r,
      (r.2 ∈ stored_tasks w ∧ Task.state r.2 ≠ "done") ∧
      match Task.parent r.2 with
      | None => r.1 = 0
      | Some p =>
          0 < r.1 ∧
          ∃ t, t ∈ stored_tasks w ∧ Task.state t ≠ "done" ∧ Task.id t = p
      end) rows.
Proof.
  intros Hroot. rewrite (tree_run w root _ Hroot). simpl.
  set (shown := filter (λ t, Task.state t ≠ "done") (stored_tasks w)).
  destruct (print_tree_rows_under shown (stack_limit w) None 0 w)
    as (res & rows & -> & Hrows).
  exists res, rows. split; [done|].
  eapply Forall_impl; [exact Hrows|].
  intros [n x] [Hx Hwhere]. simpl in *.
  apply list_elem_of_filter in Hx as [Hstate Hx]. split; [done|].
  destruct Hwhere as [[-> ->]|[Hlt (p & Hp & ->)]]; [done|].
  split; [done|]. apply list_elem_of_filter in Hp as [? ?]. by exists p.
Qed.

Lemma tree_shows_roots_and_their_children_witness :
  td_root w_kid = Some "/home/u/proj" ∧
  Cli.tree None w_kid = (Ok (), w_kid) ∧
  ∃ res rows,
    Cli.tree None w_kid = (res, prints (tree_lines rows) w_kid) ∧
    Forall (λ r,
      (r.2 ∈ stored_tasks w_kid ∧ Task.state r.2 ≠ "done") ∧
      match Task.parent r.2 with
      | None => r.1 = 0
      | Some p =>
          0 < r.1 ∧
          ∃ t, t ∈ stored_tasks w_kid ∧ Task.state t ≠ "done" ∧ Task.id t = p
      end) rows.
Proof.
  split; [reflexivity|]. split; [vm_compute; reflexivity|].
  exact (tree_shows_roots_and_their_children w_kid "/home/u/proj" eq_refl).
Defined.

(** ** The summary of [status] *)

Lemma status_counts_fold (ts : list Task.t) (d : gmap string nat) s :
  default 0 (foldl (λ d t, <[Task.state t :=
                               default 0 (d !! Task.state t) + 1]> d) d ts !! s)
  = default 0 (d !! s) + length (filter (λ t, Task.state t = s) ts).
Proof.
  revert d. induction ts as [|t ts IH]; intros d; simpl; [lia|].
  rewrite IH, filter_cons. destruct (decide (Task.state t = s)) as [->|Hne].
  - rewrite lookup_insert_eq. simpl. lia.
  - by rewrite lookup_insert_ne.
Qed.

Lemma status_counts_lookup ts s :
  default 0 (Cli.status_counts ts !! s)
  = length (filter (λ t, Task.state t = s) ts).
Proof.
  unfold Cli.status_counts. rewrite status_counts_fold. simpl.
  rewrite !lookup_insert. repeat case_decide; by rewrite ?lookup_empty.
Qed.

Lemma status_fold_is_Some (ts : list Task.t) (d : gmap string nat) s :
  is_Some (d !! s) →
  is_Some (foldl (λ d t, <[Task.state t :=
                             default 0 (d !! Task.state t) + 1]> d) d ts !! s).
Proof.
  revert d. induction ts as [|t ts IH]; intros d Hd; simpl; [done|].
  apply IH. destruct (decide (Task.state t = s)) as [->|Hne].
  - rewrite lookup_insert_eq. by eexists.
  - by rewrite lookup_insert_ne.
Qed.

(** The keys [status] reads are in the dictionary. *)
Lemma status_counts_valid ts s :
  s ∈ VALID_STATES → is_Some (Cli.status_counts ts !! s).
Proof.
  intros Hs. unfold Cli.status_counts. apply status_fold_is_Some.
  unfold VALID_STATES in Hs.
  repeat (apply elem_of_cons in Hs as [->|Hs];
          [vm_compute; eexists; reflexivity|]).
  by apply elem_of_nil in Hs.
Qed.

Lemma stored_tasks_length w : length (stored_tasks w) = size (tasks w).
Proof. unfold stored_tasks. by rewrite length_fmap, length_map_to_list. Qed.

(** X17. [status] prints one line: for each of [focus, active, later,
    done], in that order, the number of stored tasks in that state, done
    ones included, and then the number of all stored tasks. *)
Theorem status_prints_counts w root :
  td_root w = Some root →
  Cli.status w
  = (Ok (), prints [Line (status_text (count_state (stored_tasks w))
                                      (size (tasks w)))] w).
Proof.
  intros Hroot. unfold Cli.status. unfold_cmd. rewrite Hroot.
  fold (stored_tasks w). unfold status_text, count_state. simpl.
  by rewrite !status_counts_lookup, stored_tasks_length.
Qed.

Lemma status_prints_counts_witness :
  td_root w_abc = Some "/home/u/proj" ∧
  status_text (count_state (stored_tasks w_abc)) (size (tasks w_abc))
  = "focus: 1  active: 1  later: 0  done: 1  total: 3" ∧
  Cli.status w_abc
  = (Ok (), prints [Line (status_text (count_state (stored_tasks w_abc))
                                      (size (tasks w_abc)))] w_abc).
Proof.
  split; [reflexivity|]. split; [vm_compute; reflexivity|].
  exact (status_prints_counts w_abc "/home/u/proj" eq_refl).
Defined.

(** X18. The four numbers [status] prints and the number of tasks whose
    state is none of the four add up to the total it prints: the total
    counts every stored task, the four counts only the tasks in a known
    state. *)
Theorem status_total_accounts ts :
  sum_list ((λ s, default 0 (Cli.status_counts ts !! s)) <$> VALID_STATES)
  + length (filter (λ t, Task.state t ∉ VALID_STATES) ts)
  = length ts.
Proof.
  simpl. rewrite !status_counts_lookup.
  induction ts as [|t ts IH]; [done|].
  rewrite !filter_cons.
  destruct (decide (Task.state t ∉ VALID_STATES)) as [Hout|Hin].
  - assert (∀ s, s ∈ VALID_STATES → Task.state t ≠ s) as Hne
      by (intros s Hs E; apply Hout; by rewrite E).
    rewrite !decide_False
      by (apply Hne; apply (bool_decide_unpack _); vm_compute; reflexivity).
    simpl. lia.
  - apply dec_stable in Hin. unfold VALID_STATES in Hin.
    repeat (apply elem_of_cons in Hin as [E|Hin];
            [rewrite E; simpl; lia|]).
    by apply elem_of_nil in Hin.
Qed.

(** ** Removing, and what keeps the set of ids *)

Lemma resolving_missing w root command typed :
  resolving command →
  td_root w = Some root →
  tasks w !! typed = None →
  command typed w = (Raise (NotFound typed), w).
Proof.
  intros Hcmd Hroot Hnone.
  destruct Hcmd;
    unfold Cli.focus, Cli.active, Cli.later, Cli.done, Cli._set_state,
      Cli.show, Cli.edit, Cli.mv, Cli.rm;
    unfold_cmd; by rewrite Hroot, Hnone.
Qed.

(** X19. [rm --force] on a stored id removes that record and no other:
    the tasks filed under the removed one keep their parent as it was.
    Afterwards every command given that id, a second [rm] too, raises
    [NotFound]. *)
Theorem rm_then_gone w root id :
  td_root w = Some root →
  is_Some (tasks w !! id) →
  ∃ w',
    Cli.rm id true w = (Ok (), w') ∧
    tasks w' !! id = None ∧
    (∀ k, k ≠ id → tasks w' !! k = tasks w !! k) ∧
    (∀ command, resolving command →
       command id w' = (Raise (NotFound id), w')).
Proof.
  intros Hroot [t Ht]. eexists. split.
  { unfold Cli.rm. unfold_cmd. rewrite Hroot, Ht. simpl. rewrite Ht. done. }
  simpl. split; [apply lookup_delete_eq|]. split.
  - intros k Hk. by apply lookup_delete_ne.
  - intros command Hc. apply (resolving_missing _ root); [done | done |].
    simpl. apply lookup_delete_eq.
Qed.

Lemma rm_then_gone_witness :
  td_root w_kid = Some "/home/u/proj" ∧
  is_Some (tasks w_kid !! "b") ∧
  ∃ w',
    Cli.rm "b" true w_kid = (Ok (), w') ∧
    tasks w' !! "b" = None ∧
    (∀ k, k ≠ "b" → tasks w' !! k = tasks w_kid !! k) ∧
    (∀ command, resolving command →
       command "b" w' = (Raise (NotFound "b"), w')).
Proof.
  assert (is_Some (tasks w_kid !! "b")) as H
    by (exists task_B; vm_compute; reflexivity).
  split; [reflexivity|]. split; [exact H|].
  exact (rm_then_gone w_kid "/home/u/proj" "b" eq_refl H).
Defined.

(** X20. The state commands, [edit] and [mv] rewrite a record or do
    nothing: in a project whose records are named by their ids, the set of
    stored ids after the command is the set before it, whatever the
    arguments and the outcome. *)
Theorem updating_keeps_ids command id w :
  updating command →
  store_wf (tasks w) →
  dom (tasks (command id w).2) = dom (tasks w).
Proof.
  intros Hc Hwf.
  assert (∀ t t', tasks w !! id = Some t → Task.id t' = Task.id t →
            dom (<[Task.id t := t']> (tasks w)) = dom (tasks w)) as Hsame.
  { intros t t' Ht _. destruct (Hwf _ _ Ht) as [-> _].
    apply dom_insert_lookup_L. by eexists. }
  destruct Hc; unfold Cli._set_state, Cli.edit, Cli.mv; unfold_cmd;
    (destruct (td_root w); [|done]);
    (destruct (tasks w !! id) as [t|] eqn:Ht; [|done]).
  - by apply (Hsame t).
  - destruct title, notes, parent; simpl; try done; by apply (Hsame t).
  - by apply (Hsame t).
Qed.

Lemma updating_keeps_ids_witness :
  updating (λ id, Cli.mv id "ghost") ∧
  store_wf (tasks w_demo) ∧
  dom (tasks (Cli.mv "fix-login" "ghost" w_demo).2) = dom (tasks w_demo).
Proof.
  assert (updating (λ id, Cli.mv id "ghost")) as Hc by constructor.
  assert (store_wf (tasks w_demo)) as Hwf.
  { intros k t H. simpl in H. by apply lookup_singleton_Some in H as [<- <-]. }
  split; [exact Hc|]. split; [exact Hwf|].
  exact (updating_keeps_ids _ "fix-login" w_demo Hc Hwf).
Defined.

(** X21. Adding a task and then removing, with [--force], the id that
    [add] printed gives back the task directory as it was before. *)
Theorem add_then_rm_restores w root title parent state custom_id w' :
  td_root w = Some root →
  Cli.add title parent state custom_id w = (Ok (), w') →
  ∃ task_id w'',
    last (stdout w') = Some (Line task_id) ∧
    Cli.rm task_id true w' = (Ok (), w'') ∧
    tasks w'' = tasks w.
Proof.
  intros Hroot E.
  destruct (add_run w root _ _ _ _ Hroot w' E) as (i & -> & Hfree & _ & _).
  exists i. eexists. split; [simpl; by rewrite last_snoc|].
  unfold Cli.rm. unfold_cmd. simpl. rewrite Hroot. simpl.
  rewrite lookup_insert_eq. simpl. rewrite lookup_insert_eq.
  split; [done|]. simpl.
  by rewrite delete_insert_eq, delete_id.
Qed.

Lemma add_then_rm_restores_witness :
  td_root w_demo = Some "/home/u/proj" ∧
  ∃ w', Cli.add "Fix login" None None None w_demo = (Ok (), w') ∧
  ∃ task_id w'',
    last (stdout w') = Some (Line task_id) ∧
    Cli.rm task_id true w' = (Ok (), w'') ∧
    tasks w'' = tasks w_demo.
Proof.
  split; [reflexivity|].
  exists (Cli.add "Fix login" None None None w_demo).2.
  assert (Cli.add "Fix login" None None None w_demo
          = (Ok (), (Cli.add "Fix login" None None None w_demo).2)) as E
    by (vm_compute; reflexivity).
  split; [exact E|].
  exact (add_then_rm_restores w_demo "/home/u/proj" "Fix login" None None None _
           eq_refl E).
Defined.

(** ** The tree of one task, and the whole forest *)

(** X22. [tree ID] for a stored task that is not done prints the line of
    that task first, at the left margin, then, indented once, tasks filed
    under it and, deeper, tasks filed under a task that is not done; its
    own parent plays no part. *)
Theorem tree_of_task w root id t :
  td_root w = Some root →
  store_wf (tasks w) →
  tasks w !! id = Some t →
  Task.state t ≠ "done" →
  ∃ res rows,
    Cli.tree (Some id) w = (res, prints (tree_lines ((0, t) :: rows)) w) ∧
    Forall (λ r,
      r.2 ∈ not_done w ∧
      ((r.1 = 1 ∧ Task.parent r.2 = Some id) ∨
       (1 < r.1 ∧ ∃ p, p ∈ not_done w ∧ Task.parent r.2 = Some (Task.id p))))
      rows.
Proof.
  intros Hroot Hwf Ht Hstate.
  destruct (Hwf _ _ Ht) as [Hid Hne].
  rewrite (tree_run w root _ Hroot), (nonempty_Some _ Hne).
  fold (not_done w).
  assert (t ∈ not_done w) as Hshown.
  { apply list_elem_of_filter. split; [done|]. apply stored_tasks_elem. eauto. }
  assert (Cli.task_map_of (not_done w) !! id = Some t) as ->.
  { rewrite <-Hid. destruct (task_map_of_is_Some _ _ Hshown) as [x Hx].
    rewrite Hx. f_equal.
    apply task_map_of_lookup in Hx as [Hin Hidx].
    apply list_elem_of_filter in Hin as [_ Hin].
    apply stored_tasks_elem in Hin as [k Hk].
    destruct (Hwf _ _ Hk) as [Hkid _].
    rewrite Hidx, Hid in Hkid. subst k. congruence. }
  destruct (print_tree_rows_under (not_done w) (stack_limit w) (Some id) 1
              (prints [Line (Cli.tree_line 0 t)] w))
    as (res & rows & -> & Hrows).
  exists res, rows. by rewrite prints_prints.
Qed.

Lemma tree_of_task_witness :
  td_root w_family = Some "/home/u/proj" ∧
  store_wf (tasks w_family) ∧
  tasks w_family !! "a" = Some task_A ∧
  Task.state task_A ≠ "done" ∧
  stdout (Cli.tree (Some "a") w_family).2
  = [Line "a [active]"; Line "  kid [later]"] ∧
  ∃ res rows,
    Cli.tree (Some "a") w_family
    = (res, prints (tree_lines ((0, task_A) :: rows)) w_family) ∧
    Forall (λ r,
      r.2 ∈ not_done w_family ∧
      ((r.1 = 1 ∧ Task.parent r.2 = Some "a") ∨
       (1 < r.1 ∧ ∃ p, p ∈ not_done w_family ∧
                       Task.parent r.2 = Some (Task.id p))))
      rows.
Proof.
  assert (store_wf (tasks w_family)) as Hwf.
  { intros k t H. simpl in H.
    apply lookup_insert_Some in H as [[<- <-]|[_ H]]; [done|].
    by apply lookup_singleton_Some in H as [<- <-]. }
  assert (tasks w_family !! "a" = Some task_A) as Ha by (vm_compute; reflexivity).
  assert (Task.state task_A ≠ "done") as Hs by discriminate.
  split; [reflexivity|]. split; [exact Hwf|]. split; [exact Ha|].
  split; [exact Hs|]. split; [vm_compute; reflexivity|].
  exact (tree_of_task w_family "/home/u/proj" "a" task_A eq_refl Hwf Ha Hs).
Defined.

Lemma print_tree_complete shown depth parent_id indent w :
  ∃ res rows,
    Cli.print_tree depth (Cli.children_of shown) parent_id indent w
    = (res, prints (tree_lines rows) w) ∧
    (res = Ok () →
       (∀ t, t ∈ shown → Task.parent t = parent_id → (indent, t) ∈ rows) ∧
       (∀ n x, (n, x) ∈ rows →
          ∀ t, t ∈ shown → Task.parent t = Some (Task.id x) → (S n, t) ∈ rows)).
Proof.
  revert parent_id indent w.
  induction depth as [|depth IH]; intros parent_id indent w; simpl.
  - exists (Raise RecursionError), []. split; [|done].
    unfold mthrow, cmd_throw. by rewrite prints_nil.
  - assert (∀ t, t ∈ shown → Task.parent t = parent_id →
              t ∈ default [] (Cli.children_of shown !! parent_id)) as Hall.
    { intros t Ht <-. by apply children_of_elem. }
    revert Hall. generalize (default [] (Cli.children_of shown !! parent_id)).
    intros cs Hall.
    assert (∃ res rows,
              for_each cs (λ t,
                echo (Cli.tree_line indent t);;
                Cli.print_tree depth (Cli.children_of shown)
                  (Some (Task.id t)) (S indent)) w
              = (res, prints (tree_lines rows) w) ∧
              (res = Ok () →
                 (∀ t, t ∈ cs → (indent, t) ∈ rows) ∧
                 (∀ n x, (n, x) ∈ rows →
                    ∀ t, t ∈ shown → Task.parent t = Some (Task.id x) →
                         (S n, t) ∈ rows))) as (res & rows & E & Hok).
    { clear Hall. revert w. induction cs as [|c cs IHcs]; intros w; simpl.
      - exists (Ok ()), []. split.
        + unfold mret, cmd_ret. by rewrite prints_nil.
        + intros _. split; intros; by exfalso; eapply elem_of_nil.
      - rewrite bind_run. cbv beta. rewrite bind_run. unfold echo at 1.
        fold (prints [Line (Cli.tree_line indent c)] w).
        destruct (IH (Some (Task.id c)) (S indent)
                    (prints [Line (Cli.tree_line indent c)] w))
          as (res1 & rows1 & -> & Hok1).
        rewrite prints_prints.
        destruct res1 as [[]|e].
        + destruct (Hok1 eq_refl) as [Hkids1 Hclosed1].
          destruct (IHcs (prints ([Line (Cli.tree_line indent c)]
                                  ++ tree_lines rows1) w))
            as (res2 & rows2 & -> & Hok2).
          rewrite prints_prints.
          exists res2, (((indent, c) :: rows1) ++ rows2). split.
          * unfold tree_lines. by rewrite fmap_app, fmap_cons.
          * intros Hres. destruct (Hok2 Hres) as [Hrest Hclosed2]. split.
            -- intros t Ht. apply elem_of_app.
               apply elem_of_cons in Ht as [->|Ht]; [left; left | right; by apply Hrest].
            -- intros n x Hx t Ht Hp. apply elem_of_app.
               apply elem_of_app in Hx as [Hx|Hx]; [left | right; by eapply Hclosed2].
               apply elem_of_cons in Hx as [[= -> ->]|Hx]; right.
               ++ by apply Hkids1.
               ++ by eapply Hclosed1.
        + exists (Raise e), ((indent, c) :: rows1). split; [done|]. done. }
    exists res, rows. split; [done|]. intros Hres.
    destruct (Hok Hres) as [Hfirst Hclosed]. split; [|done].
    intros t Ht Hp. by apply Hfirst, Hall.
Qed.

(** X23. When [tree] without an id returns, it has left nothing out that
    hangs on a root: every task that is not done and has no parent is
    shown at the left margin, and under every task shown, one step deeper,
    every task that is not done and has it as parent. *)
Theorem tree_returns_whole_forest w root :
  td_root w = Some root →
  (Cli.tree None w).1 = Ok () →
  ∃ rows,
    Cli.tree None w = (Ok (), prints (tree_lines rows) w) ∧
    (∀ t, t ∈ not_done w → Task.parent t = None → (0, t) ∈ rows) ∧
    (∀ n x, (n, x) ∈ rows →
       ∀ t, t ∈ not_done w → Task.parent t = Some (Task.id x) →
            (S n, t) ∈ rows).
Proof.
  intros Hroot E. rewrite (tree_run w root _ Hroot) in E |- *. simpl in *.
  fold (not_done w) in E |- *.
  destruct (print_tree_complete (not_done w) (stack_limit w) None 0 w)
    as (res & rows & E' & Hok).
  rewrite E' in E |- *. simpl in E. subst res.
  exists rows. split; [done | by apply Hok].
Qed.

Lemma tree_returns_whole_forest_witness :
  td_root w_family = Some "/home/u/proj" ∧
  (Cli.tree None w_family).1 = Ok () ∧
  stdout (Cli.tree None w_family).2
  = [Line "a [active]"; Line "  kid [later]"] ∧
  ∃ rows,
    Cli.tree None w_family = (Ok (), prints (tree_lines rows) w_family) ∧
    (∀ t, t ∈ not_done w_family → Task.parent t = None → (0, t) ∈ rows) ∧
    (∀ n x, (n, x) ∈ rows →
       ∀ t, t ∈ not_done w_family → Task.parent t = Some (Task.id x) →
            (S n, t) ∈ rows).
Proof.
  assert ((Cli.tree None w_family).1 = Ok ()) as E by (vm_compute; reflexivity).
  split; [reflexivity|]. split; [exact E|]. split; [vm_compute; reflexivity|].
  exact (tree_returns_whole_forest w_family "/home/u/proj" eq_refl E).
Defined.
